(** * long-form-tts: the text sanitizer, the chunk splitter and the
      conversion loop of [audiobook_creator.py]

    A shallow embedding of the Python source.  A text is a list of
    characters; characters are the code points below 256, classified as
    CPython classifies them ([str.isspace], and the [\w] and [\s] classes of
    [re] on [str] patterns).  Python integers are [Z]; slices and indexing
    follow Python's rules for negative and out-of-range positions, so that
    the splitter is modelled for every integer chunk size. *)

From Stdlib Require Import Ascii String ZArith Lia Bool Arith List.
Import ListNotations.

Open Scope Z_scope.

(* ================================================================== *)
(** * Python strings *)
(* ================================================================== *)

Module Py.

Definition text : Type := list ascii.

Definition space : ascii := " "%char.
Definition newline : ascii := "010"%char.

(** [len(s)], as a Python integer. *)
Definition len {A : Type} (l : list A) : Z := Z.of_nat (length l).

Definition ord (c : ascii) : Z := Z.of_N (N_of_ascii c).

Definition between (lo hi : Z) (c : ascii) : bool :=
  (lo <=? ord c) && (ord c <=? hi).

(** [c.isspace()], which is also the class [\s] and what [split()] and
    [strip()] take for whitespace: TAB..CR, FS..US, space, NEL, NBSP. *)
Definition isspace (c : ascii) : bool :=
  between 9 13 c || between 28 32 c || (ord c =? 133) || (ord c =? 160).

(** The class [\w]: alphanumeric (in the Unicode sense) or underscore. *)
Definition isword (c : ascii) : bool :=
  between 48 57 c || between 65 90 c || (ord c =? 95) || between 97 122 c
  || (ord c =? 170) || between 178 179 c || (ord c =? 181)
  || between 185 186 c || between 188 190 c
  || between 192 214 c || between 216 246 c || between 248 255 c.

Fixpoint text_eqb (a b : text) : bool :=
  match a, b with
  | [], [] => true
  | x :: a', y :: b' => Ascii.eqb x y && text_eqb a' b'
  | _, _ => false
  end.

Definition nonempty {A : Type} (l : list A) : bool :=
  match l with [] => false | _ :: _ => true end.

(** [s.lstrip()], [s.rstrip()] and [s.strip()]. *)
Fixpoint lstrip (s : text) : text :=
  match s with
  | [] => []
  | c :: s' => if isspace c then lstrip s' else s
  end.

Fixpoint rstrip (s : text) : text :=
  match s with
  | [] => []
  | c :: s' =>
      match rstrip s' with
      | [] => if isspace c then [] else [c]
      | r => c :: r
      end
  end.

Definition strip (s : text) : text := rstrip (lstrip s).

(** [s.split()]: the maximal runs of non-whitespace, in order.  The helper
    returns the run that starts the text (empty when the text starts with
    whitespace) apart from the words that follow it. *)
Definition cons_word (w : text) (ws : list text) : list text :=
  match w with [] => ws | _ :: _ => w :: ws end.

Fixpoint split_aux (s : text) : text * list text :=
  match s with
  | [] => ([], [])
  | c :: s' =>
      let (w, ws) := split_aux s' in
      if isspace c then ([], cons_word w ws) else (c :: w, ws)
  end.

Definition split (s : text) : list text :=
  let (w, ws) := split_aux s in cons_word w ws.

(** [sep.join(ws)]. *)
Fixpoint join (sep : text) (ws : list text) : text :=
  match ws with
  | [] => []
  | w :: ws' =>
      match ws' with
      | [] => w
      | _ :: _ => w ++ sep ++ join sep ws'
      end
  end.

(** A slice bound: negative bounds count from the end, and bounds are
    clamped to [0, len]. *)
Definition bound (n i : Z) : Z :=
  if i <? 0 then Z.max 0 (i + n) else Z.min i n.

(** [s[lo:hi]] and [s[lo:]]. *)
Definition slice {A : Type} (s : list A) (lo hi : Z) : list A :=
  let lo' := bound (len s) lo in
  let hi' := bound (len s) hi in
  firstn (Z.to_nat (hi' - lo')) (skipn (Z.to_nat lo') s).

Definition slice_from {A : Type} (s : list A) (lo : Z) : list A :=
  skipn (Z.to_nat (bound (len s) lo)) s.

(** [s[i]]: [None] stands for [IndexError]. *)
Definition index {A : Type} (s : list A) (i : Z) : option A :=
  if (i <? - len s) || (len s <=? i) then None
  else nth_error s (Z.to_nat (if i <? 0 then i + len s else i)).

(** [range(start, stop, -1)]. *)
Definition range_down (start stop : Z) : list Z :=
  map (fun k => start - Z.of_nat k) (seq 0 (Z.to_nat (start - stop))).

(** [re.sub(r'\s+', ' ', s)]: every maximal run of whitespace becomes one
    space.  The flag tells whether the previous character was whitespace. *)
Fixpoint collapse (in_run : bool) (s : text) : text :=
  match s with
  | [] => []
  | c :: s' =>
      if isspace c
      then (if in_run then collapse true s' else space :: collapse true s')
      else c :: collapse false s'
  end.

End Py.

Import Py.

(** Text literals. *)
Definition T (s : string) : text := list_ascii_of_string s.

(* ================================================================== *)
(** * clean_text_for_tts *)
(* ================================================================== *)

(** The punctuation kept by the first substitution: full stop, comma,
    exclamation and question mark, semicolon, colon, hyphen, apostrophe and
    double quote (character 34). *)
Definition kept_punctuation : text := T ".,!?;:-'" ++ ["034"%char].

(** The characters that the negated class of the first [re.sub] does not
    match: word characters, whitespace and the kept punctuation. *)
Definition kept (c : ascii) : bool :=
  isword c || isspace c || existsb (Ascii.eqb c) kept_punctuation.

Definition replace_problematic (s : text) : text :=
  map (fun c => if kept c then c else space) s.

Definition fix_multiple_spaces (s : text) : text := collapse false s.

Definition max_word_length : Z := 50.

Definition remove_long_words (words : list text) : list text :=
  filter (fun word => negb (max_word_length <? len word)) words.

Definition clean_text_for_tts (s : text) : text :=
  let s := replace_problematic s in
  let s := fix_multiple_spaces s in
  let words := split s in
  let cleaned_words := remove_long_words words in
  let s := join [space] cleaned_words in
  strip s.

(* ================================================================== *)
(** * smart_text_splitter *)
(* ================================================================== *)

Inductive exn : Type := IndexError | ZeroDivisionError.

(** What a call can do: return, raise, or still be running when the fuel
    of the model is spent. *)
Inductive outcome (A : Type) : Type :=
| Returns (a : A)
| Raises (e : exn)
| OutOfFuel.

Arguments Returns {A} a.
Arguments Raises {A} e.
Arguments OutOfFuel {A}.

Definition sentence_endings : list text :=
  [ T ". "; T "! "; T "? ";
    ["."%char; newline]; ["!"%char; newline]; ["?"%char; newline] ].

(** The backward scan of the window for a sentence ending: the position
    just after the punctuation mark, or [-1]. *)
Definition is_ending_at (chunk_text : text) (i : Z) : bool :=
  existsb (fun ending => text_eqb (slice chunk_text i (i + len ending)) ending)
          sentence_endings.

Definition sentence_split (chunk_text : text) : Z :=
  match find (is_ending_at chunk_text)
             (range_down (len chunk_text - 1) (Z.max (len chunk_text / 2) 0))
  with
  | Some i => i + 1
  | None => -1
  end.

(** The split point inside the window. *)
Definition best_split_of (chunk_text : text) (chunk_size : Z) : Z :=
  let best_split := sentence_split chunk_text in
  if best_split =? -1 then
    let words := split chunk_text in
    if 1 <? len words then len (join [space] (removelast words))
    else chunk_size
  else best_split.

(** [while current_pos < len(text) and text[current_pos].isspace():
    current_pos += 1].  The loop runs at most [len(text) - current_pos]
    times, which is what [n] counts. *)
Fixpoint skip_whitespace_from (n : nat) (s : text) (current_pos : Z)
  : outcome Z :=
  match n with
  | O => Returns current_pos
  | S n' =>
      if current_pos <? len s then
        match index s current_pos with
        | None => Raises IndexError
        | Some c =>
            if isspace c then skip_whitespace_from n' s (current_pos + 1)
            else Returns current_pos
        end
      else Returns current_pos
  end.

Definition skip_whitespace (s : text) (current_pos : Z) : outcome Z :=
  skip_whitespace_from (Z.to_nat (len s - current_pos)) s current_pos.

(** The [while current_pos < len(text)] loop; [fuel] bounds the number of
    iterations. *)
Fixpoint split_loop (fuel : nat) (s : text) (chunk_size current_pos : Z)
         (chunks : list text) : outcome (list text) :=
  match fuel with
  | O => OutOfFuel
  | S fuel' =>
      if current_pos <? len s then
        let end_pos := current_pos + chunk_size in
        if len s <=? end_pos then
          Returns (chunks ++ [strip (slice_from s current_pos)])
        else
          let chunk_text := slice s current_pos end_pos in
          let best_split := best_split_of chunk_text chunk_size in
          let chunks :=
            chunks ++ [strip (slice s current_pos (current_pos + best_split))] in
          match skip_whitespace s (current_pos + best_split) with
          | Returns current_pos' =>
              split_loop fuel' s chunk_size current_pos' chunks
          | Raises e => Raises e
          | OutOfFuel => OutOfFuel
          end
      else Returns chunks
  end.

Definition drop_blank_chunks (chunks : list text) : list text :=
  filter (fun chunk => nonempty (strip chunk)) chunks.

Definition smart_text_splitter_fuel (fuel : nat) (s : text) (chunk_size : Z)
  : outcome (list text) :=
  let s := clean_text_for_tts s in
  if len s <=? chunk_size then Returns [s]
  else
    match split_loop fuel s chunk_size 0 [] with
    | Returns chunks => Returns (drop_blank_chunks chunks)
    | Raises e => Raises e
    | OutOfFuel => OutOfFuel
    end.

(** One unit of fuel per character of the cleaned text, and one for the
    last test of the loop condition: enough whenever [chunk_size >= 1]. *)
Definition smart_text_splitter (s : text) (chunk_size : Z)
  : outcome (list text) :=
  smart_text_splitter_fuel (S (length (clean_text_for_tts s))) s chunk_size.

(* ================================================================== *)
(** * The conversion functions *)
(* ================================================================== *)

Definition bytes : Type := list Byte.byte.

(** One call of the collaborator, [session.tts(request)], as the loop that
    consumes it sees it: the generator yields audio pieces and ends, or it
    raises after the pieces it has yielded. *)
Inductive stream : Type :=
| Completed (pieces : list bytes)
| Broken (pieces : list bytes).

(** What a conversion function leaves behind: its return value, the
    content of the output file when it was opened, and the texts of the
    requests made to the collaborator, in order. *)
Record report : Type := {
  success : bool;
  output : option bytes;
  requests : list text
}.

Definition failed : report :=
  {| success := false; output := None; requests := [] |}.

Definition CHUNK_SIZE : Z := 1800.
Definition api_key_placeholder : string := "your_api_key_here".
Definition model_id_placeholder : string := "your_model_id_here".

Inductive strategy : Type := SmartChunking | StandardConversion.

Inductive main_run (A : Type) : Type :=
| NotConfigured
| InputNotFound
| Ran (how : strategy) (result : A).

Arguments NotConfigured {A}.
Arguments InputNotFound {A}.
Arguments Ran {A} how result.

Section Conversion.

(** The remote service: its state, and how it answers a request. *)
Variable service : Type.
Variable tts : service -> text -> stream * service.

(** [chunk_audio = b''; for audio_piece in ...: chunk_audio += audio_piece] *)
Definition receive (pieces : list bytes) : bytes :=
  fold_left (fun chunk_audio audio_piece => chunk_audio ++ audio_piece)
            pieces [].

(** [for audio_chunk in audio_chunks: final_audio.write(audio_chunk)] on
    a file opened with ["wb"]. *)
Definition write_all (audio_chunks : list bytes) : bytes :=
  fold_left (fun file audio_chunk => file ++ audio_chunk) audio_chunks [].

(** The loop over the chunks: a chunk whose request raises is skipped. *)
Fixpoint process_chunks (chunks : list text) (sv : service)
         (audio_chunks : list bytes) (sent : list text)
  : list bytes * list text * service :=
  match chunks with
  | [] => (audio_chunks, sent, sv)
  | chunk :: rest =>
      let (answer, sv') := tts sv chunk in
      match answer with
      | Completed pieces =>
          process_chunks rest sv' (audio_chunks ++ [receive pieces])
                         (sent ++ [chunk])
      | Broken _ =>
          process_chunks rest sv' audio_chunks (sent ++ [chunk])
      end
  end.

(** [input_file] is the content of the text file, [None] when there is
    no such file.  An exception that reaches the outer handlers makes the
    function return [False]; so does the division by [len(chunks)] of the
    average when there is no chunk. *)
Definition convert_large_text_to_speech
           (input_file : option text) (chunk_size : Z) (sv : service)
  : outcome (report * service) :=
  match input_file with
  | None => Returns (failed, sv)
  | Some content =>
      let full_text := strip content in
      if negb (nonempty full_text) then Returns (failed, sv)
      else
        match smart_text_splitter full_text chunk_size with
        | OutOfFuel => OutOfFuel
        | Raises _ => Returns (failed, sv)
        | Returns [] => Returns (failed, sv)
        | Returns chunks =>
            let '(audio_chunks, sent, sv') :=
              process_chunks chunks sv [] [] in
            Returns ({| success := true;
                        output := Some (write_all audio_chunks);
                        requests := sent |}, sv')
        end
  end.

Definition convert_text_file_to_speech
           (input_file : option text) (sv : service) : report * service :=
  match input_file with
  | None => (failed, sv)
  | Some content =>
      let text_content := strip content in
      if negb (nonempty text_content) then (failed, sv)
      else
        let text_content := clean_text_for_tts text_content in
        let (answer, sv') := tts sv text_content in
        match answer with
        | Completed pieces =>
            ({| success := true;
                output := Some (write_all pieces);
                requests := [text_content] |}, sv')
        | Broken pieces =>
            ({| success := false;
                output := Some (write_all pieces);
                requests := [text_content] |}, sv')
        end
  end.

Definition main (API_KEY MODEL_ID : string) (input_file : option text)
           (sv : service) : main_run (outcome (report * service)) :=
  if String.eqb API_KEY api_key_placeholder
     || String.eqb MODEL_ID model_id_placeholder
  then NotConfigured
  else
    match input_file with
    | None => InputNotFound
    | Some content =>
        let text_length := len content in
        if 2000 <? text_length then
          Ran SmartChunking
              (convert_large_text_to_speech input_file CHUNK_SIZE sv)
        else
          Ran StandardConversion
              (Returns (convert_text_file_to_speech input_file sv))
    end.

(** The answers of the service to a sequence of requests, one after the
    other. *)
Fixpoint answers (chunks : list text) (sv : service) : list stream :=
  match chunks with
  | [] => []
  | chunk :: rest =>
      let (answer, sv') := tts sv chunk in answer :: answers rest sv'
  end.

End Conversion.

Arguments receive : clear implicits.
Arguments write_all : clear implicits.

(** The audio buffer of a chunk whose request succeeded. *)
Definition buffer_of (answer : stream) : list bytes :=
  match answer with
  | Completed pieces => [concat pieces]
  | Broken _ => []
  end.

(* ================================================================== *)
(** * Vocabulary of the proofs *)
(* ================================================================== *)

Definition nospace (w : text) : Prop := Forall (fun c => isspace c = false) w.

(** A word: a non-empty run of characters that are not whitespace. *)
Definition is_token (w : text) : Prop := w <> [] /\ nospace w.

(** A word as the sanitizer leaves it. *)
Definition is_clean_word (w : text) : Prop :=
  is_token w /\ Forall (fun c => kept c = true) w /\ len w <= max_word_length.

(** The text is empty, or it starts and ends with a character that is not
    whitespace. *)
Definition trimmed (s : text) : Prop :=
  s = [] \/ (exists c r, s = c :: r /\ isspace c = false)
            /\ (exists r c, s = r ++ [c] /\ isspace c = false).

(** The words that the sanitizer keeps. *)
Definition clean_words (s : text) : list text :=
  remove_long_words (split (fix_multiple_spaces (replace_problematic s))).

(** The two characters of a sentence ending. *)
Definition is_mark (c : ascii) : bool := existsb (Ascii.eqb c) (T ".!?").
Definition is_gap (c : ascii) : bool := Ascii.eqb c space || Ascii.eqb c newline.



(** The characters of a text that are not whitespace, in order. *)
Definition letters (s : text) : text := filter (fun c => negb (isspace c)) s.

(** The text [a] is a run of consecutive characters of [b]. *)
Definition occurs_in (a b : text) : Prop :=
  exists pre post, b = pre ++ a ++ post.

(** The number of characters of the words, each counted with one
    separator. *)
Definition total (ws : list text) : nat :=
  list_sum (map (fun w => S (length w)) ws).

(** The loop of the splitter on what is left of the text, for a positive
    chunk size: the chunk that is cut from the front and the chunks of the
    rest. *)
Fixpoint chunks_of (fuel : nat) (rest : text) (chunk_size : Z) : list text :=
  match fuel with
  | O => []
  | S fuel' =>
      match rest with
      | [] => []
      | _ :: _ =>
          if len rest <=? chunk_size then [strip rest]
          else
            let best_split :=
              best_split_of (firstn (Z.to_nat chunk_size) rest) chunk_size in
            strip (firstn (Z.to_nat best_split) rest)
            :: chunks_of fuel' (lstrip (skipn (Z.to_nat best_split) rest))
                         chunk_size
      end
  end.

(* ================================================================== *)
(** * Inputs of the examples *)
(* ================================================================== *)

Definition hello : text := T "Hello world. This is a test! Another sentence?".

Definition five_sentences : text :=
  T "One two three four. Five six seven. Eight nine ten eleven. Twelve thirteen. Fourteen fifteen.".

Definition ten : text := T "abcdefghi ".

(** 3000 characters, 300 words of nine letters, no punctuation. *)
Definition doc3000 : text := concat (repeat ten 300).


(** A service that fails every request. *)
Definition refuse (n : nat) (chunk : text) : stream * nat := (Broken [], S n).

(** 2001 characters, of which the sanitizer keeps 1999. *)
Definition doc2001 : text := concat (repeat ten 200) ++ T "@".

(** A service that numbers its requests from 0: request [failing] raises,
    any other is answered with the bytes of its text, in two pieces. *)
Definition echo (failing : nat) (n : nat) (chunk : text) : stream * nat :=
  (if Nat.eqb n failing then Broken [map byte_of_ascii (firstn 3 chunk)]
   else Completed [map byte_of_ascii (firstn 3 chunk);
                   map byte_of_ascii (skipn 3 chunk)],
   S n).

(* ================================================================== *)
(** * Python strings: lemmas *)
(* ================================================================== *)

Lemma isspace_space : isspace space = true.
Proof. reflexivity. Qed.

Lemma kept_space : kept space = true.
Proof. reflexivity. Qed.

Lemma len_nonneg {A : Type} (l : list A) : 0 <= len l.
Proof. unfold len. lia. Qed.

Lemma len_app {A : Type} (a b : list A) : len (a ++ b) = len a + len b.
Proof. unfold len. rewrite length_app. lia. Qed.

Lemma len_cons {A : Type} (x : A) (l : list A) : len (x :: l) = 1 + len l.
Proof. unfold len. simpl length. lia. Qed.

Lemma nonempty_true {A : Type} (l : list A) : nonempty l = true <-> l <> [].
Proof. destruct l; simpl; split; congruence. Qed.

(** ** strip *)

Lemma lstrip_length s : (length (lstrip s) <= length s)%nat.
Proof.
  induction s as [|c s IH]; simpl; [lia|].
  destruct (isspace c); simpl; lia.
Qed.

Lemma rstrip_length s : (length (rstrip s) <= length s)%nat.
Proof.
  induction s as [|c s IH]; simpl; [lia|].
  destruct (rstrip s); [destruct (isspace c)|]; simpl in *; lia.
Qed.

Lemma strip_length s : (length (strip s) <= length s)%nat.
Proof.
  unfold strip. pose proof (rstrip_length (lstrip s)).
  pose proof (lstrip_length s). lia.
Qed.

Lemma lstrip_head c s : isspace c = false -> lstrip (c :: s) = c :: s.
Proof. intros H. simpl. rewrite H. reflexivity. Qed.

Lemma lstrip_space c s : isspace c = true -> lstrip (c :: s) = lstrip s.
Proof. intros H. simpl. rewrite H. reflexivity. Qed.

Lemma lstrip_starts s c r : lstrip s = c :: r -> isspace c = false.
Proof.
  induction s as [|x s IH]; simpl; [discriminate|].
  destruct (isspace x) eqn:E; [exact IH|].
  intros H. injection H as -> _. exact E.
Qed.

Lemma rstrip_last_nonspace s c :
  isspace c = false -> rstrip (s ++ [c]) = s ++ [c].
Proof.
  intros H. induction s as [|x s IH]; simpl.
  - rewrite H. reflexivity.
  - rewrite IH. destruct (s ++ [c]) eqn:E; [|reflexivity].
    apply app_eq_nil in E. destruct E; discriminate.
Qed.

Lemma rstrip_last_space s c :
  isspace c = true -> rstrip (s ++ [c]) = rstrip s.
Proof.
  intros H. induction s as [|x s IH]; simpl.
  - rewrite H. reflexivity.
  - rewrite IH. reflexivity.
Qed.

Lemma rstrip_blank s : Forall (fun c => isspace c = true) s -> rstrip s = [].
Proof.
  induction 1 as [|c s Hc _ IH]; simpl; [reflexivity|].
  rewrite IH, Hc. reflexivity.
Qed.

Lemma lstrip_blank s : Forall (fun c => isspace c = true) s -> lstrip s = [].
Proof.
  induction 1 as [|c s Hc _ IH]; simpl; [reflexivity|].
  rewrite Hc. exact IH.
Qed.

Lemma rstrip_app_nonblank a b : rstrip b <> [] -> rstrip (a ++ b) = a ++ rstrip b.
Proof.
  intros H. induction a as [|x a IH]; simpl; [reflexivity|].
  rewrite IH. destruct (a ++ rstrip b) eqn:E; [|reflexivity].
  apply app_eq_nil in E. destruct E; contradiction.
Qed.

Lemma strip_trimmed s : trimmed s -> strip s = s.
Proof.
  intros [->|[[c [r [E Hc]]] [r' [c' [E' Hc']]]]]; [reflexivity|].
  unfold strip. rewrite E, (lstrip_head _ _ Hc), <- E, E'.
  apply rstrip_last_nonspace, Hc'.
Qed.

(** ** join *)

Lemma join_cons sep w ws :
  ws <> [] -> join sep (w :: ws) = w ++ sep ++ join sep ws.
Proof. destruct ws; [contradiction|reflexivity]. Qed.

Lemma join_single sep w : join sep [w] = w.
Proof. reflexivity. Qed.

Lemma join_app sep a b :
  a <> [] -> b <> [] -> join sep (a ++ b) = join sep a ++ sep ++ join sep b.
Proof.
  intros Ha Hb. induction a as [|w a IH]; [contradiction|].
  destruct a as [|w' a].
  - simpl app. rewrite join_cons by assumption. reflexivity.
  - change ((w :: w' :: a) ++ b) with (w :: (w' :: a) ++ b).
    rewrite join_cons by discriminate.
    rewrite IH by discriminate.
    rewrite (join_cons sep w (w' :: a)) by discriminate.
    rewrite <- !app_assoc. reflexivity.
Qed.

Lemma join_length ws : length (join [space] ws) = (total ws - 1)%nat.
Proof.
  induction ws as [|w ws IH]; [reflexivity|].
  destruct ws as [|w' ws].
  - unfold total. simpl. lia.
  - rewrite join_cons by discriminate.
    rewrite !length_app, IH. unfold total. simpl. lia.
Qed.

Lemma total_cons w ws : total (w :: ws) = (S (length w) + total ws)%nat.
Proof. reflexivity. Qed.

Lemma total_app a b : total (a ++ b) = (total a + total b)%nat.
Proof. unfold total. rewrite map_app, list_sum_app. reflexivity. Qed.

Lemma total_filter f ws : (total (filter f ws) <= total ws)%nat.
Proof.
  induction ws as [|w ws IH]; simpl; [lia|].
  destruct (f w); rewrite ?total_cons; lia.
Qed.

Lemma total_removelast ws : (total (removelast ws) <= total ws)%nat.
Proof.
  induction ws as [|w ws IH]; [simpl; lia|].
  destruct ws as [|w' ws]; [unfold total; simpl; lia|].
  change (removelast (w :: w' :: ws)) with (w :: removelast (w' :: ws)).
  rewrite !total_cons in *. lia.
Qed.

Lemma join_Forall (P : ascii -> Prop) sep ws :
  Forall P sep -> Forall (Forall P) ws -> Forall P (join sep ws).
Proof.
  intros Hs. induction 1 as [|w ws Hw Hws IH]; [constructor|].
  destruct ws as [|w' ws]; [exact Hw|].
  rewrite join_cons by discriminate.
  apply Forall_app; split; [exact Hw|].
  apply Forall_app; split; [exact Hs|exact IH].
Qed.

(** ** split *)

Lemma cons_word_Forall (Q : text -> Prop) w ws :
  (w <> [] -> Q w) -> Forall Q ws -> Forall Q (cons_word w ws).
Proof.
  intros Hw Hws. destruct w; simpl; [exact Hws|].
  constructor; [apply Hw; discriminate|exact Hws].
Qed.

Lemma split_aux_tokens s :
  nospace (fst (split_aux s)) /\ Forall is_token (snd (split_aux s)).
Proof.
  induction s as [|c s [IHw IHws]]; simpl.
  - split; constructor.
  - destruct (split_aux s) as [w ws]; simpl in *.
    destruct (isspace c) eqn:E; simpl.
    + split; [constructor|].
      apply cons_word_Forall; [|exact IHws].
      intros Hne. split; assumption.
    + split; [constructor; assumption|exact IHws].
Qed.

Lemma split_tokens s : Forall is_token (split s).
Proof.
  unfold split. pose proof (split_aux_tokens s) as [Hw Hws].
  destruct (split_aux s) as [w ws]; simpl in *.
  apply cons_word_Forall; [|exact Hws].
  intros Hne. split; assumption.
Qed.

Lemma split_aux_Forall (P : ascii -> Prop) s :
  Forall P s ->
  Forall P (fst (split_aux s)) /\ Forall (Forall P) (snd (split_aux s)).
Proof.
  induction 1 as [|c s Hc Hs [IHw IHws]]; simpl.
  - split; constructor.
  - destruct (split_aux s) as [w ws]; simpl in *.
    destruct (isspace c); simpl.
    + split; [constructor|].
      apply cons_word_Forall; [intros _; exact IHw|exact IHws].
    + split; [constructor; assumption|exact IHws].
Qed.

Lemma split_Forall (P : ascii -> Prop) s :
  Forall P s -> Forall (Forall P) (split s).
Proof.
  intros H. unfold split. pose proof (split_aux_Forall P s H) as [Hw Hws].
  destruct (split_aux s) as [w ws]; simpl in *.
  apply cons_word_Forall; [intros _; exact Hw|exact Hws].
Qed.

Lemma split_aux_nospace_app w s :
  nospace w ->
  split_aux (w ++ s) = (w ++ fst (split_aux s), snd (split_aux s)).
Proof.
  induction w as [|c w IH]; intros H; simpl.
  - destruct (split_aux s); reflexivity.
  - apply Forall_cons_iff in H as [Hc Hw].
    rewrite (IH Hw), Hc. reflexivity.
Qed.

Lemma split_aux_space c s :
  isspace c = true -> split_aux (c :: s) = ([], split s).
Proof.
  intros H. simpl. unfold split. destruct (split_aux s). rewrite H.
  reflexivity.
Qed.

Lemma split_space c s : isspace c = true -> split (c :: s) = split s.
Proof.
  intros H. unfold split at 1. rewrite (split_aux_space _ _ H). reflexivity.
Qed.

Lemma split_token w : is_token w -> split w = [w].
Proof.
  intros [Hne Hw]. unfold split.
  rewrite <- (app_nil_r w) at 1.
  rewrite (split_aux_nospace_app _ _ Hw). simpl. rewrite app_nil_r.
  destruct w; [contradiction|reflexivity].
Qed.

Lemma split_token_space w c s :
  is_token w -> isspace c = true -> split (w ++ c :: s) = w :: split s.
Proof.
  intros [Hne Hw] Hc. unfold split at 1.
  rewrite (split_aux_nospace_app _ _ Hw), (split_aux_space _ _ Hc).
  simpl. rewrite app_nil_r.
  destruct w; [contradiction|reflexivity].
Qed.

Lemma split_join_tokens ws :
  Forall is_token ws -> split (join [space] ws) = ws.
Proof.
  induction 1 as [|w ws Hw Hws IH]; [reflexivity|].
  destruct ws as [|w' ws]; [apply split_token, Hw|].
  rewrite join_cons by discriminate.
  change ([space] ++ ?x) with (space :: x).
  rewrite (split_token_space _ _ _ Hw isspace_space), IH. reflexivity.
Qed.

Lemma split_aux_total s :
  (length (fst (split_aux s)) + total (snd (split_aux s)) <= length s)%nat.
Proof.
  induction s as [|c s IH]; simpl; [unfold total; simpl; lia|].
  destruct (split_aux s) as [w ws]; simpl in *.
  destruct (isspace c); simpl.
  - destruct w; simpl in *; rewrite ?total_cons; simpl; lia.
  - lia.
Qed.

Lemma split_total s : (total (split s) <= S (length s))%nat.
Proof.
  unfold split. pose proof (split_aux_total s) as H.
  destruct (split_aux s) as [w ws]; simpl in *.
  destruct w; simpl in *; rewrite ?total_cons; simpl; lia.
Qed.

(** ** collapse *)

Lemma collapse_length b s : (length (collapse b s) <= length s)%nat.
Proof.
  revert b. induction s as [|c s IH]; intros b; simpl; [lia|].
  destruct (isspace c); [destruct b|]; simpl.
  - specialize (IH true). lia.
  - specialize (IH true). lia.
  - specialize (IH false). lia.
Qed.

Lemma collapse_Forall (P : ascii -> Prop) b s :
  P space -> Forall P s -> Forall P (collapse b s).
Proof.
  intros Hsp H. revert b.
  induction H as [|c s Hc Hs IH]; intros b; simpl; [constructor|].
  destruct (isspace c); [destruct b|]; auto.
Qed.

Lemma collapse_token_app b w s :
  is_token w -> collapse b (w ++ s) = w ++ collapse false s.
Proof.
  intros [Hne Hw]. revert b.
  induction Hw as [|c w Hc Hw IH]; intros b; [contradiction|].
  simpl. rewrite Hc. f_equal.
  destruct w as [|c' w]; [reflexivity|].
  apply IH. discriminate.
Qed.

Lemma collapse_tokens ws :
  Forall is_token ws -> forall b, collapse b (join [space] ws) = join [space] ws.
Proof.
  induction 1 as [|w ws Hw Hws IH]; intros b; [reflexivity|].
  destruct ws as [|w' ws].
  - simpl join. rewrite <- (app_nil_r w) at 1.
    rewrite (collapse_token_app _ _ _ Hw). simpl. apply app_nil_r.
  - rewrite join_cons by discriminate.
    rewrite (collapse_token_app _ _ _ Hw).
    change (collapse false ([space] ++ ?x)) with (space :: collapse true x).
    rewrite IH. reflexivity.
Qed.

(** ** The sanitizer *)

Lemma replace_problematic_kept s :
  Forall (fun c => kept c = true) (replace_problematic s).
Proof.
  unfold replace_problematic. apply Forall_map, Forall_forall.
  intros c _. destruct (kept c) eqn:E; [exact E|exact kept_space].
Qed.

Lemma replace_problematic_id s :
  Forall (fun c => kept c = true) s -> replace_problematic s = s.
Proof.
  unfold replace_problematic.
  induction 1 as [|c s Hc Hs IH]; simpl; [reflexivity|].
  rewrite Hc, IH. reflexivity.
Qed.

Lemma remove_long_words_id ws :
  Forall (fun w => len w <= max_word_length) ws -> remove_long_words ws = ws.
Proof.
  unfold remove_long_words.
  induction 1 as [|w ws Hw Hws IH]; simpl; [reflexivity|].
  rewrite IH. destruct (max_word_length <? len w) eqn:E; [|reflexivity].
  apply Z.ltb_lt in E. lia.
Qed.

Lemma clean_words_ok s : Forall is_clean_word (clean_words s).
Proof.
  unfold clean_words, remove_long_words.
  set (x := fix_multiple_spaces (replace_problematic s)).
  assert (Hk : Forall (Forall (fun c => kept c = true)) (split x)).
  { apply split_Forall. unfold x, fix_multiple_spaces.
    apply collapse_Forall; [exact kept_space|apply replace_problematic_kept]. }
  pose proof (split_tokens x) as Ht.
  apply Forall_forall. intros w Hin. apply filter_In in Hin as [Hin Hlen].
  rewrite Forall_forall in Hk, Ht.
  repeat split; try apply Ht; try apply Hk; try assumption.
  apply negb_true_iff, Z.ltb_ge in Hlen. exact Hlen.
Qed.

Lemma clean_words_tokens ws : Forall is_clean_word ws -> Forall is_token ws.
Proof. apply Forall_impl. intros w [H _]. exact H. Qed.

Lemma join_tokens_head ws :
  Forall is_token ws -> ws <> [] ->
  exists c r, join [space] ws = c :: r /\ isspace c = false.
Proof.
  intros H Hne. destruct H as [|w ws [Hw Hn] Hws]; [contradiction|].
  destruct Hn as [|c w Hc Hn]; [contradiction|].
  destruct ws as [|w' ws]; simpl; eauto.
Qed.

Lemma join_tokens_last ws :
  Forall is_token ws -> ws <> [] ->
  exists r c, join [space] ws = r ++ [c] /\ isspace c = false.
Proof.
  induction 1 as [|w ws Hw Hws IH]; intros Hne; [contradiction|].
  destruct ws as [|w' ws].
  - destruct Hw as [Hn Hw].
    destruct (exists_last Hn) as [r [c E]]. exists r, c. split; [exact E|].
    rewrite E in Hw. apply Forall_app in Hw as [_ Hc].
    apply Forall_cons_iff in Hc as [Hc _]. exact Hc.
  - destruct IH as [r [c [E Hc]]]; [discriminate|].
    rewrite join_cons by discriminate. rewrite E.
    exists (w ++ [space] ++ r), c. split; [|exact Hc].
    rewrite <- !app_assoc. reflexivity.
Qed.

Lemma join_tokens_trimmed ws : Forall is_token ws -> trimmed (join [space] ws).
Proof.
  intros H. destruct ws as [|w ws]; [left; reflexivity|right].
  split; [apply join_tokens_head|apply join_tokens_last];
    try assumption; discriminate.
Qed.

Lemma clean_text_join s :
  clean_text_for_tts s = join [space] (clean_words s).
Proof.
  unfold clean_text_for_tts. fold (clean_words s).
  apply strip_trimmed, join_tokens_trimmed, clean_words_tokens, clean_words_ok.
Qed.

Lemma clean_text_trimmed s : trimmed (clean_text_for_tts s).
Proof.
  rewrite clean_text_join.
  apply join_tokens_trimmed, clean_words_tokens, clean_words_ok.
Qed.

Lemma clean_words_join ws :
  Forall is_clean_word ws -> clean_words (join [space] ws) = ws.
Proof.
  intros H. pose proof (clean_words_tokens _ H) as Ht.
  unfold clean_words, fix_multiple_spaces.
  rewrite replace_problematic_id.
  - rewrite (collapse_tokens _ Ht), (split_join_tokens _ Ht).
    apply remove_long_words_id. revert H. apply Forall_impl.
    intros w [_ [_ Hl]]. exact Hl.
  - apply join_Forall; [repeat constructor; exact kept_space|].
    revert H. apply Forall_impl. intros w [_ [Hk _]]. exact Hk.
Qed.

Lemma clean_text_length s : len (clean_text_for_tts s) <= len s.
Proof.
  unfold clean_text_for_tts, remove_long_words, fix_multiple_spaces, len.
  set (x := collapse false (replace_problematic s)).
  set (f := fun word : text => negb (max_word_length <? Z.of_nat (length word))).
  pose proof (strip_length (join [space] (filter f (split x)))) as H1.
  rewrite join_length in H1.
  pose proof (total_filter f (split x)) as H2.
  pose proof (split_total x) as H3.
  pose proof (collapse_length false (replace_problematic s)) as H4.
  fold x in H4. unfold replace_problematic in H4. rewrite length_map in H4.
  apply Nat2Z.inj_le.
  change (length (strip (join [space] (filter f (split x)))) <= length s)%nat.
  lia.
Qed.

(** ** Slices and positions inside the text *)

Lemma bound_inside n i : 0 <= i <= n -> bound n i = i.
Proof.
  intros H. unfold bound. destruct (i <? 0) eqn:E.
  - apply Z.ltb_lt in E. lia.
  - lia.
Qed.

Lemma slice_inside {A : Type} (s : list A) lo hi :
  0 <= lo <= hi -> hi <= len s ->
  slice s lo hi = firstn (Z.to_nat (hi - lo)) (skipn (Z.to_nat lo) s).
Proof.
  intros H1 H2. unfold slice. rewrite !bound_inside by lia. reflexivity.
Qed.

Lemma slice_from_inside {A : Type} (s : list A) lo :
  0 <= lo <= len s -> slice_from s lo = skipn (Z.to_nat lo) s.
Proof. intros H. unfold slice_from. rewrite bound_inside by lia. reflexivity. Qed.

Lemma index_inside {A : Type} (s : list A) i :
  0 <= i < len s -> index s i = nth_error s (Z.to_nat i).
Proof.
  intros H. unfold index.
  destruct (i <? - len s) eqn:E1; [apply Z.ltb_lt in E1; lia|].
  destruct (len s <=? i) eqn:E2; [apply Z.leb_le in E2; lia|].
  destruct (i <? 0) eqn:E3; [apply Z.ltb_lt in E3; lia|].
  reflexivity.
Qed.

Lemma skipn_nth_error {A : Type} (s : list A) k c :
  nth_error s k = Some c -> skipn k s = c :: skipn (S k) s.
Proof.
  revert s. induction k as [|k IH]; intros [|x s] H; try discriminate.
  - injection H as ->. reflexivity.
  - simpl in H. rewrite (skipn_cons k x s). rewrite (IH _ H). reflexivity.
Qed.

Lemma len_skipn {A : Type} (s : list A) p :
  0 <= p <= len s -> len (skipn (Z.to_nat p) s) = len s - p.
Proof. intros H. unfold len in *. rewrite length_skipn. lia. Qed.

Lemma len_firstn {A : Type} (s : list A) k :
  0 <= k -> len (firstn (Z.to_nat k) s) = Z.min k (len s).
Proof. intros H. unfold len. rewrite length_firstn. lia. Qed.

Lemma range_down_In start stop i :
  In i (range_down start stop) <-> stop < i <= start.
Proof.
  unfold range_down. rewrite in_map_iff. split.
  - intros [k [E Hk]]. apply in_seq in Hk. lia.
  - intros H. exists (Z.to_nat (start - i)). split; [lia|].
    apply in_seq. lia.
Qed.

(** The inner loop stops at the first character that is not whitespace. *)
Lemma skip_whitespace_from_spec n s p :
  0 <= p <= len s -> n = Z.to_nat (len s - p) ->
  exists p', skip_whitespace_from n s p = Returns p' /\ p <= p' <= len s
             /\ skipn (Z.to_nat p') s = lstrip (skipn (Z.to_nat p) s).
Proof.
  revert p. induction n as [|n IH]; intros p Hp Hn; simpl.
  - exists p. split; [reflexivity|]. split; [lia|].
    assert (E : Z.to_nat p = length s) by (unfold len in *; lia).
    rewrite E, skipn_all. reflexivity.
  - destruct (p <? len s) eqn:Elt; [|apply Z.ltb_ge in Elt; lia].
    rewrite index_inside by lia.
    destruct (nth_error s (Z.to_nat p)) as [c|] eqn:Ec.
    + rewrite (skipn_nth_error _ _ _ Ec).
      destruct (isspace c) eqn:Esp.
      * destruct (IH (p + 1)) as [p' [E [Hb Hs]]]; [lia|lia|].
        exists p'. split; [exact E|]. split; [lia|].
        rewrite Hs, (lstrip_space _ _ Esp).
        replace (Z.to_nat (p + 1)) with (S (Z.to_nat p)) by lia. reflexivity.
      * exists p. split; [reflexivity|]. split; [lia|].
        rewrite (lstrip_head _ _ Esp). apply skipn_nth_error, Ec.
    + apply nth_error_None in Ec. unfold len in *. lia.
Qed.

Lemma skip_whitespace_spec s p :
  0 <= p <= len s ->
  exists p', skip_whitespace s p = Returns p' /\ p <= p' <= len s
             /\ skipn (Z.to_nat p') s = lstrip (skipn (Z.to_nat p) s).
Proof. intros H. apply skip_whitespace_from_spec; [exact H|reflexivity]. Qed.

(** ** The split point *)

Lemma sentence_split_found w :
  sentence_split w <> -1 ->
  exists i, sentence_split w = i + 1 /\ is_ending_at w i = true
            /\ Z.max (len w / 2) 0 < i <= len w - 1.
Proof.
  unfold sentence_split.
  destruct (find _ _) as [i|] eqn:E; [|congruence].
  intros _. apply find_some in E as [Hin Hi]. apply range_down_In in Hin.
  exists i. auto.
Qed.

Lemma join_removelast_bounds w :
  1 < len (split w) ->
  1 <= len (join [space] (removelast (split w))) <= len w.
Proof.
  intros H. unfold len in *. rewrite join_length.
  pose proof (total_removelast (split w)) as H1.
  pose proof (split_total w) as H2.
  pose proof (split_tokens w) as Ht.
  destruct (split w) as [|a [|b ws]]; try (simpl in H; lia).
  apply Forall_cons_iff in Ht as [[Ha _] _].
  change (removelast (a :: b :: ws)) with (a :: removelast (b :: ws)) in *.
  rewrite !total_cons in *.
  destruct a; [contradiction|]. simpl length in *. lia.
Qed.

Lemma best_split_bounds w chunk_size :
  1 <= chunk_size -> len w <= chunk_size ->
  1 <= best_split_of w chunk_size <= chunk_size.
Proof.
  intros Hc Hw. unfold best_split_of.
  destruct (sentence_split w =? -1) eqn:E.
  - destruct (1 <? len (split w)) eqn:E2; [|lia].
    apply Z.ltb_lt in E2. pose proof (join_removelast_bounds w E2). lia.
  - apply Z.eqb_neq in E.
    destruct (sentence_split_found w E) as [i [-> [_ Hi]]]. lia.
Qed.

(** ** The loop, on what is left of the text *)

Lemma chunks_of_step fuel rest chunk_size :
  rest <> [] ->
  chunks_of (S fuel) rest chunk_size =
  if len rest <=? chunk_size then [strip rest]
  else
    let best_split :=
      best_split_of (firstn (Z.to_nat chunk_size) rest) chunk_size in
    strip (firstn (Z.to_nat best_split) rest)
    :: chunks_of fuel (lstrip (skipn (Z.to_nat best_split) rest)) chunk_size.
Proof. destruct rest; [contradiction|reflexivity]. Qed.

Lemma split_loop_chunks_of fuel s chunk_size p acc :
  1 <= chunk_size -> 0 <= p <= len s ->
  (Z.to_nat (len s - p) < fuel)%nat ->
  split_loop fuel s chunk_size p acc
  = Returns (acc ++ chunks_of fuel (skipn (Z.to_nat p) s) chunk_size).
Proof.
  intros Hc. revert p acc.
  induction fuel as [|fuel IH]; intros p acc Hp Hf; [lia|].
  simpl split_loop.
  destruct (p <? len s) eqn:Elt.
  - apply Z.ltb_lt in Elt.
    pose proof (len_skipn s p Hp) as Hlen.
    assert (Hne : skipn (Z.to_nat p) s <> []).
    { intros E. rewrite E in Hlen. unfold len at 1 in Hlen. simpl in Hlen. lia. }
    rewrite (chunks_of_step _ _ _ Hne), Hlen.
    destruct (len s <=? p + chunk_size) eqn:Eend.
    + apply Z.leb_le in Eend.
      destruct (len s - p <=? chunk_size) eqn:E; [|apply Z.leb_gt in E; lia].
      rewrite slice_from_inside by lia. reflexivity.
    + apply Z.leb_gt in Eend.
      destruct (len s - p <=? chunk_size) eqn:E; [apply Z.leb_le in E; lia|].
      rewrite (slice_inside s p (p + chunk_size)) by lia.
      replace (p + chunk_size - p) with chunk_size by lia.
      set (w := firstn (Z.to_nat chunk_size) (skipn (Z.to_nat p) s)).
      assert (Hw : len w <= chunk_size).
      { unfold w. rewrite len_firstn by lia. lia. }
      pose proof (best_split_bounds w chunk_size Hc Hw) as Hb.
      cbv zeta. set (b := best_split_of w chunk_size) in *.
      rewrite (slice_inside s p (p + b)) by lia.
      replace (p + b - p) with b by lia.
      destruct (skip_whitespace_spec s (p + b)) as [p' [E' [Hp' Hs]]]; [lia|].
      rewrite E', IH by lia. rewrite Hs.
      replace (Z.to_nat (p + b)) with (Z.to_nat b + Z.to_nat p)%nat by lia.
      rewrite <- skipn_skipn, <- app_assoc. reflexivity.
  - apply Z.ltb_ge in Elt.
    assert (E : Z.to_nat p = length s) by (unfold len in *; lia).
    rewrite E, skipn_all. destruct fuel; simpl; rewrite app_nil_r; reflexivity.
Qed.

Lemma chunks_of_last fuel rest chunk_size :
  rest <> [] -> (0 < fuel)%nat -> len rest <= chunk_size ->
  chunks_of fuel rest chunk_size = [strip rest].
Proof.
  intros Hne Hf Hl. destruct fuel as [|fuel]; [lia|].
  rewrite chunks_of_step by exact Hne.
  apply Z.leb_le in Hl. rewrite Hl. reflexivity.
Qed.

Lemma chunks_of_bounded fuel rest chunk_size :
  1 <= chunk_size ->
  Forall (fun chunk => len chunk <= chunk_size) (chunks_of fuel rest chunk_size).
Proof.
  intros Hc. revert rest.
  induction fuel as [|fuel IH]; intros rest; [constructor|].
  destruct rest as [|c r] eqn:Er; [constructor|]. rewrite <- Er.
  rewrite chunks_of_step by (rewrite Er; discriminate).
  destruct (len rest <=? chunk_size) eqn:E.
  - apply Z.leb_le in E. constructor; [|constructor].
    pose proof (strip_length rest). unfold len in *. lia.
  - cbv zeta. set (w := firstn (Z.to_nat chunk_size) rest).
    assert (Hw : len w <= chunk_size).
    { unfold w. rewrite len_firstn by lia. lia. }
    pose proof (best_split_bounds w chunk_size Hc Hw) as Hb.
    constructor; [|apply IH].
    pose proof (strip_length (firstn (Z.to_nat (best_split_of w chunk_size)) rest)) as H.
    rewrite length_firstn in H. unfold len. lia.
Qed.

(** With a positive chunk size the fuel of [smart_text_splitter] is never
    spent and no exception is raised. *)
Lemma smart_text_splitter_positive s chunk_size :
  1 <= chunk_size ->
  smart_text_splitter s chunk_size
  = Returns
      (if len (clean_text_for_tts s) <=? chunk_size then [clean_text_for_tts s]
       else drop_blank_chunks
              (chunks_of (S (length (clean_text_for_tts s)))
                         (clean_text_for_tts s) chunk_size)).
Proof.
  intros Hc. unfold smart_text_splitter, smart_text_splitter_fuel.
  destruct (len (clean_text_for_tts s) <=? chunk_size); [reflexivity|].
  rewrite split_loop_chunks_of; [reflexivity|lia| |].
  - pose proof (len_nonneg (clean_text_for_tts s)). lia.
  - unfold len. lia.
Qed.

(** ** Chunks are trimmed and the first one is not blank *)

Lemma rstrip_cons_nonspace c s :
  isspace c = false -> rstrip (c :: s) = c :: rstrip s.
Proof. intros H. simpl. destruct (rstrip s); [rewrite H|]; reflexivity. Qed.

Lemma rstrip_ends s :
  rstrip s = [] \/ exists r c, rstrip s = r ++ [c] /\ isspace c = false.
Proof.
  induction s as [|x s [E|[r [c [E Hc]]]]]; simpl; [left; reflexivity| |].
  - rewrite E. destruct (isspace x) eqn:Ex; [left; reflexivity|].
    right. exists [], x. split; [reflexivity|exact Ex].
  - right. rewrite E. exists (x :: r), c. split; [|exact Hc].
    destruct (r ++ [c]) eqn:E2; [|rewrite <- E2; reflexivity].
    apply app_eq_nil in E2. destruct E2; discriminate.
Qed.

Lemma strip_is_trimmed s : trimmed (strip s).
Proof.
  unfold strip. destruct (lstrip s) as [|c r] eqn:E; [left; reflexivity|].
  pose proof (lstrip_starts _ _ _ E) as Hc.
  right. split.
  - rewrite (rstrip_cons_nonspace _ _ Hc). eauto.
  - destruct (rstrip_ends (c :: r)) as [E2|H]; [|exact H].
    rewrite (rstrip_cons_nonspace _ _ Hc) in E2. discriminate.
Qed.

Lemma strip_strip s : strip (strip s) = strip s.
Proof. apply strip_trimmed, strip_is_trimmed. Qed.

Lemma strip_nonspace_head c s : isspace c = false -> strip (c :: s) <> [].
Proof.
  intros H. unfold strip.
  rewrite (lstrip_head _ _ H), (rstrip_cons_nonspace _ _ H). discriminate.
Qed.

Lemma filter_Forall {A : Type} (P : A -> Prop) f l :
  Forall P l -> Forall P (filter f l).
Proof.
  rewrite !Forall_forall. intros H x Hx. apply filter_In in Hx as [Hx _]. auto.
Qed.

Lemma drop_blank_keeps c s rest :
  isspace c = false ->
  drop_blank_chunks (strip (c :: s) :: rest)
  = strip (c :: s) :: drop_blank_chunks rest.
Proof.
  intros H. unfold drop_blank_chunks. simpl filter. rewrite strip_strip.
  destruct (strip (c :: s)) eqn:E; [|reflexivity].
  exfalso. exact (strip_nonspace_head _ _ H E).
Qed.

Lemma chunks_of_first_nonblank fuel c r chunk_size :
  1 <= chunk_size -> isspace c = false ->
  drop_blank_chunks (chunks_of (S fuel) (c :: r) chunk_size) <> [].
Proof.
  intros Hc Hsp. rewrite chunks_of_step by discriminate.
  destruct (len (c :: r) <=? chunk_size).
  - rewrite (drop_blank_keeps _ _ _ Hsp). discriminate.
  - cbv zeta. set (w := firstn (Z.to_nat chunk_size) (c :: r)).
    assert (Hw : len w <= chunk_size).
    { unfold w. rewrite len_firstn by lia. lia. }
    pose proof (best_split_bounds w chunk_size Hc Hw) as Hb.
    destruct (Z.to_nat (best_split_of w chunk_size)) as [|n] eqn:En; [lia|].
    rewrite firstn_cons, (drop_blank_keeps _ _ _ Hsp). discriminate.
Qed.

Lemma splitter_chunks_nonempty s chunk_size chunks :
  1 <= chunk_size ->
  smart_text_splitter s chunk_size = Returns chunks -> chunks <> [].
Proof.
  intros Hc E. rewrite (smart_text_splitter_positive _ _ Hc) in E.
  destruct (len (clean_text_for_tts s) <=? chunk_size) eqn:El;
    [congruence|].
  apply Z.leb_gt in El.
  destruct (clean_text_trimmed s) as [E'|[[c [r [E' Hsp]]] _]].
  - rewrite E' in El. unfold len in El. simpl in El. lia.
  - rewrite E' in E.
    pose proof (chunks_of_first_nonblank (length (c :: r)) c r chunk_size Hc Hsp) as H.
    congruence.
Qed.

(** ** Text without words, and chunk size zero *)


Lemma isspace_kept c : isspace c = true -> kept c = true.
Proof. intros H. unfold kept. rewrite H. apply orb_true_iff. left. apply orb_true_r. Qed.


Lemma skip_whitespace_nonspace s p c :
  0 <= p < len s -> nth_error s (Z.to_nat p) = Some c -> isspace c = false ->
  skip_whitespace s p = Returns p.
Proof.
  intros Hp Hn Hc. unfold skip_whitespace.
  destruct (Z.to_nat (len s - p)) as [|n] eqn:En; [lia|].
  cbn [skip_whitespace_from].
  destruct (p <? len s) eqn:E; [|apply Z.ltb_ge in E; lia].
  rewrite index_inside, Hn, Hc by lia. reflexivity.
Qed.

Lemma split_loop_zero fuel c r acc :
  isspace c = false -> split_loop fuel (c :: r) 0 0 acc = OutOfFuel.
Proof.
  intros Hc. revert acc. induction fuel as [|fuel IH]; intros acc; [reflexivity|].
  assert (Hl : 0 < len (c :: r)) by (rewrite len_cons; pose proof (len_nonneg r); lia).
  simpl split_loop.
  destruct (0 <? len (c :: r)) eqn:E1; [|apply Z.ltb_ge in E1; lia].
  destruct (len (c :: r) <=? 0) eqn:E2; [apply Z.leb_le in E2; lia|].
  rewrite (slice_inside (c :: r) 0 0) by lia.
  change (best_split_of (firstn (Z.to_nat (0 - 0)) (skipn (Z.to_nat 0) (c :: r))) 0)
    with 0.
  rewrite (skip_whitespace_nonspace (c :: r) 0 c) by (auto; lia).
  apply IH.
Qed.

(** ** Sentence endings *)

Lemma text_eqb_eq a b : text_eqb a b = true -> a = b.
Proof.
  revert b. induction a as [|x a IH]; intros [|y b] H; simpl in H;
    try discriminate; [reflexivity|].
  apply andb_true_iff in H as [Hx Hab].
  apply Ascii.eqb_eq in Hx. rewrite Hx, (IH _ Hab). reflexivity.
Qed.

Lemma slice_nonneg {A : Type} (w : list A) i k :
  0 <= i -> 0 <= k ->
  slice w i (i + k) = firstn (Z.to_nat k) (skipn (Z.to_nat i) w).
Proof.
  intros Hi Hk. unfold slice, bound.
  destruct (i <? 0) eqn:E1; [apply Z.ltb_lt in E1; lia|].
  destruct (i + k <? 0) eqn:E2; [apply Z.ltb_lt in E2; lia|].
  destruct (Z_le_gt_dec (len w) i) as [Hge|Hlt].
  - rewrite (skipn_all2 w (n := Z.to_nat (Z.min i (len w))))
      by (unfold len in *; lia).
    rewrite (skipn_all2 w (n := Z.to_nat i)) by (unfold len in *; lia).
    rewrite !firstn_nil. reflexivity.
  - replace (Z.min i (len w)) with i by lia.
    destruct (Z_le_gt_dec (i + k) (len w)) as [Hin|Hout].
    + replace (Z.min (i + k) (len w) - i) with k by lia. reflexivity.
    + rewrite !firstn_all2; [reflexivity| |];
        rewrite length_skipn; unfold len in *; lia.
Qed.

Lemma is_ending_at_chars w i :
  0 <= i -> is_ending_at w i = true ->
  exists p q, nth_error w (Z.to_nat i) = Some p
              /\ nth_error w (S (Z.to_nat i)) = Some q
              /\ is_mark p = true /\ is_gap q = true.
Proof.
  intros Hi H. unfold is_ending_at in H.
  apply existsb_exists in H as [ending [Hin He]].
  apply text_eqb_eq in He.
  assert (Hshape : exists p q, ending = [p; q] /\ is_mark p = true
                               /\ is_gap q = true).
  { simpl in Hin.
    destruct Hin as [<-|[<-|[<-|[<-|[<-|[<-|[]]]]]]];
      eexists; eexists; (split; [reflexivity|split; reflexivity]). }
  destruct Hshape as [p [q [-> [Hp Hq]]]].
  change (len [p; q]) with 2 in He.
  rewrite slice_nonneg in He by lia.
  exists p, q. repeat split; try assumption.
  - rewrite <- (Nat.add_0_r (Z.to_nat i)), <- nth_error_skipn.
    destruct (skipn (Z.to_nat i) w) as [|a [|b l]]; simpl in He;
      try discriminate. injection He as -> ->. reflexivity.
  - rewrite <- (Nat.add_1_r (Z.to_nat i)), <- nth_error_skipn.
    destruct (skipn (Z.to_nat i) w) as [|a [|b l]]; simpl in He;
      try discriminate. injection He as -> ->. reflexivity.
Qed.

Lemma is_gap_space q : is_gap q = true -> isspace q = true.
Proof.
  unfold is_gap. intros H. apply orb_true_iff in H as [H|H];
    apply Ascii.eqb_eq in H; subst q; reflexivity.
Qed.

Lemma sentence_split_none w :
  (forall i, 0 < i -> is_ending_at w i = false) -> sentence_split w = -1.
Proof.
  intros H. unfold sentence_split.
  destruct (find _ _) as [i|] eqn:E; [|reflexivity].
  apply find_some in E as [Hin Hi]. apply range_down_In in Hin.
  rewrite H in Hi by lia. discriminate.
Qed.

Lemma nospace_no_ending w i : nospace w -> 0 <= i -> is_ending_at w i = false.
Proof.
  intros Hw Hi. destruct (is_ending_at w i) eqn:E; [|reflexivity].
  destruct (is_ending_at_chars w i Hi E) as [p [q [_ [Hq [_ Hg]]]]].
  apply nth_error_In in Hq. unfold nospace in Hw. rewrite Forall_forall in Hw.
  apply is_gap_space in Hg. rewrite (Hw _ Hq) in Hg. discriminate.
Qed.

(** ** A separator of the text cuts its list of words *)

Lemma nospace_nth w p c :
  nospace w -> nth_error w p = Some c -> isspace c = false.
Proof.
  intros Hw H. apply nth_error_In in H. unfold nospace in Hw.
  rewrite Forall_forall in Hw. auto.
Qed.

Lemma join_cut ws :
  Forall is_token ws -> forall p c,
  nth_error (join [space] ws) p = Some c -> isspace c = true ->
  exists a b, ws = a ++ b /\ a <> [] /\ b <> []
              /\ firstn p (join [space] ws) = join [space] a
              /\ skipn (S p) (join [space] ws) = join [space] b.
Proof.
  induction 1 as [|w ws Hw Hws IH]; intros p c Hn Hc.
  - destruct p; discriminate.
  - destruct ws as [|w' ws].
    + simpl join in Hn. destruct Hw as [_ Hw].
      rewrite (nospace_nth _ _ _ Hw Hn) in Hc. discriminate.
    + rewrite join_cons in * by discriminate.
      change ([space] ++ ?x) with (space :: x) in *.
      set (J := join [space] (w' :: ws)) in *.
      destruct (Nat.lt_trichotomy p (length w)) as [Hlt|[Heq|Hgt]].
      * rewrite nth_error_app1 in Hn by exact Hlt. destruct Hw as [_ Hw].
        rewrite (nospace_nth _ _ _ Hw Hn) in Hc. discriminate.
      * exists [w], (w' :: ws). subst p.
        repeat split; try discriminate.
        -- rewrite firstn_app, Nat.sub_diag, firstn_all. simpl. apply app_nil_r.
        -- rewrite skipn_app, skipn_all2 by lia.
           replace (S (length w) - length w)%nat with 1%nat by lia. reflexivity.
      * rewrite nth_error_app2 in Hn by lia.
        destruct (p - length w)%nat as [|p'] eqn:Ep; [lia|]. simpl in Hn.
        destruct (IH p' c Hn Hc) as [a [b [E [Ha [Hb [Hf Hs]]]]]].
        exists (w :: a), b. repeat split; try assumption; try discriminate.
        -- rewrite E. reflexivity.
        -- rewrite firstn_app, Ep, firstn_cons, Hf, firstn_all2 by lia.
           rewrite join_cons by assumption. reflexivity.
        -- rewrite skipn_app, skipn_all2 by lia.
           replace (S p - length w)%nat with (S (S p')) by lia.
           exact Hs.
Qed.

Lemma lstrip_join ws : Forall is_token ws -> lstrip (join [space] ws) = join [space] ws.
Proof.
  intros H. destruct ws as [|w ws]; [reflexivity|].
  destruct (join_tokens_head _ H) as [c [r [E Hc]]]; [discriminate|].
  rewrite E. apply lstrip_head, Hc.
Qed.

Lemma strip_join ws : Forall is_token ws -> strip (join [space] ws) = join [space] ws.
Proof. intros H. apply strip_trimmed, join_tokens_trimmed, H. Qed.

Lemma cut_at_separator ws p c :
  Forall is_token ws ->
  nth_error (join [space] ws) p = Some c -> isspace c = true ->
  exists a b, ws = a ++ b /\ a <> [] /\ b <> []
              /\ strip (firstn p (join [space] ws)) = join [space] a
              /\ lstrip (skipn p (join [space] ws)) = join [space] b.
Proof.
  intros H Hn Hc.
  destruct (join_cut ws H p c Hn Hc) as [a [b [E [Ha [Hb [Hf Hs]]]]]].
  exists a, b. rewrite E in H. apply Forall_app in H as [HA HB].
  repeat split; try assumption.
  - rewrite Hf. apply strip_join, HA.
  - rewrite (skipn_nth_error _ _ _ Hn), (lstrip_space _ _ Hc), Hs.
    apply lstrip_join, HB.
Qed.

(** ** The window, as a prefix of the words of the text *)

Lemma split_nonspace_head d x : isspace d = false -> split (d :: x) <> [].
Proof.
  intros H. unfold split. simpl. destruct (split_aux x) as [w ws].
  rewrite H. simpl. discriminate.
Qed.

Lemma split_nospace_short w : nospace w -> (length (split w) <= 1)%nat.
Proof.
  intros H. destruct w as [|c w]; [simpl; lia|].
  rewrite split_token; [simpl; lia|]. split; [discriminate|exact H].
Qed.

Lemma firstn_nospace k w : nospace w -> nospace (firstn k w).
Proof.
  unfold nospace. rewrite !Forall_forall. intros H c Hc.
  apply H. rewrite <- (firstn_skipn k w). apply in_or_app. left. exact Hc.
Qed.

Lemma firstn_app_beyond {A : Type} k (a b : list A) :
  (length a <= k)%nat -> firstn k (a ++ b) = a ++ firstn (k - length a) b.
Proof. intros H. rewrite firstn_app, firstn_all2 by exact H. reflexivity. Qed.

Lemma firstn_app_within {A : Type} k (a b : list A) :
  (k <= length a)%nat -> firstn k (a ++ b) = firstn k a.
Proof.
  intros H. rewrite firstn_app.
  replace (k - length a)%nat with 0%nat by lia. simpl. apply app_nil_r.
Qed.

Lemma nth_error_firstn_Some {A : Type} k (l : list A) p c :
  nth_error (firstn k l) p = Some c -> nth_error l p = Some c.
Proof.
  rewrite nth_error_firstn. destruct (p <? k)%nat; [auto|discriminate].
Qed.

(** A window with at most one word lies inside the first word of the text,
    or it is that word and its separator. *)
Lemma single_word_prefix t ws k :
  Forall is_token (t :: ws) ->
  (k <= length (join [space] (t :: ws)))%nat ->
  (length (split (firstn k (join [space] (t :: ws)))) <= 1)%nat ->
  (k <= length t)%nat \/ (ws <> [] /\ k = S (length t)).
Proof.
  intros H Hk Hs. apply Forall_cons_iff in H as [Ht Hws].
  destruct ws as [|t' ws]; [left; exact Hk|].
  destruct (Nat.le_gt_cases k (S (length t))) as [Hle|Hgt].
  - destruct (Nat.eq_dec k (S (length t))) as [E|E].
    + right. split; [discriminate|exact E].
    + left. lia.
  - exfalso. rewrite join_cons in Hs by discriminate.
    change ([space] ++ ?x) with (space :: x) in Hs.
    rewrite firstn_app_beyond in Hs by lia.
    destruct (k - length t)%nat as [|[|k']] eqn:Ek; try lia.
    rewrite firstn_cons in Hs.
    destruct (join_tokens_head _ Hws) as [d [r [E Hd]]]; [discriminate|].
    rewrite E, firstn_cons in Hs.
    rewrite (split_token_space _ _ _ Ht isspace_space) in Hs.
    pose proof (split_nonspace_head d (firstn k' r) Hd) as Hne.
    destruct (split (d :: firstn k' r)); [contradiction|simpl in Hs; lia].
Qed.

(** With two words or more in the window, the split point of the word
    fallback is the separator before the last word of the window. *)
Lemma word_boundary m ws :
  Forall is_token ws -> Forall (fun t => (length t <= m)%nat) ws ->
  forall k,
    (k <= length (join [space] ws))%nat ->
    (1 < length (split (firstn k (join [space] ws))))%nat ->
    let p := length (join [space]
                          (removelast (split (firstn k (join [space] ws))))) in
    nth_error (firstn k (join [space] ws)) p = Some space
    /\ (p + 2 <= k <= p + m + 2)%nat.
Proof.
  induction 1 as [|t ws Ht Hws IH]; intros Hm k Hk Hs.
  - simpl in Hs. rewrite firstn_nil in Hs. simpl in Hs. lia.
  - apply Forall_cons_iff in Hm as [Hmt Hm].
    destruct ws as [|t' ws].
    + exfalso. simpl join in Hs.
      pose proof (split_nospace_short _ (firstn_nospace k t (proj2 Ht))). lia.
    + destruct (Nat.le_gt_cases k (length t)) as [Hle|Hgt].
      { exfalso. rewrite join_cons in Hs by discriminate.
        rewrite firstn_app_within in Hs by exact Hle.
        pose proof (split_nospace_short _ (firstn_nospace k t (proj2 Ht))).
        lia. }
      rewrite join_cons in * by discriminate.
      change ([space] ++ ?x) with (space :: x) in *.
      set (J := join [space] (t' :: ws)) in *.
      rewrite length_app in Hk. simpl length in Hk.
      rewrite firstn_app_beyond in * by lia.
      destruct (k - length t)%nat as [|k'] eqn:Ek; [lia|].
      rewrite firstn_cons in *.
      rewrite (split_token_space _ _ _ Ht isspace_space) in *.
      specialize (IH Hm k').
      pose proof (single_word_prefix t' ws k' Hws) as Hone.
      fold J in Hone.
      destruct (split (firstn k' J)) as [|x [|y l]] eqn:Esp.
      * simpl in Hs. lia.
      * cbv zeta. simpl removelast. simpl join.
        split.
        -- rewrite nth_error_app2, Nat.sub_diag by lia. reflexivity.
        -- assert (k' <> 0)%nat.
           { intros ->. simpl in Esp. discriminate. }
           apply Forall_cons_iff in Hm as [Hmt' _].
           destruct Hone as [Hone|[_ Hone]]; simpl; lia.
      * destruct IH as [IHa IHb]; [lia|simpl; lia|].
        cbv zeta.
        change (removelast (t :: x :: y :: l))
          with (t :: removelast (x :: y :: l)).
        set (rl := removelast (x :: y :: l)) in *.
        assert (Hrl : rl <> []) by (unfold rl; discriminate).
        rewrite join_cons by exact Hrl.
        set (p' := length (join [space] rl)) in *.
        rewrite !length_app. change (length [space]) with 1%nat.
        split; [|lia].
        rewrite nth_error_app2 by lia.
        match goal with
        | |- nth_error _ ?n = _ => replace n with (S p') by (unfold p'; lia)
        end.
        exact IHa.
Qed.

Lemma strip_token t : is_token t -> strip t = t.
Proof.
  intros H. exact (strip_join [t] (Forall_cons _ H (Forall_nil _))).
Qed.

Lemma strip_token_space t : is_token t -> strip (t ++ [space]) = t.
Proof.
  intros H. pose proof (strip_token t H) as E. destruct H as [Hne Hns].
  destruct t as [|c t]; [contradiction|].
  apply Forall_cons_iff in Hns as [Hc _]. unfold strip in *.
  change ((c :: t) ++ [space]) with (c :: (t ++ [space])).
  rewrite (lstrip_head _ _ Hc). rewrite (lstrip_head _ _ Hc) in E.
  change (c :: (t ++ [space])) with ((c :: t) ++ [space]).
  rewrite (rstrip_last_space _ _ isspace_space). exact E.
Qed.

(** A window with one word is cut at its end, which is the end of that
    word or of its separator when no word is longer than the window. *)
Lemma hard_cut ws k :
  Forall is_token ws -> Forall (fun t => (length t <= k)%nat) ws ->
  (k < length (join [space] ws))%nat ->
  (length (split (firstn k (join [space] ws))) <= 1)%nat ->
  exists a b, ws = a ++ b /\ a <> [] /\ b <> []
              /\ strip (firstn k (join [space] ws)) = join [space] a
              /\ lstrip (skipn k (join [space] ws)) = join [space] b.
Proof.
  intros H Hm Hk Hs. destruct ws as [|t ws]; [simpl in Hk; lia|].
  pose proof (single_word_prefix t ws k H) as Hone.
  pose proof H as H'. apply Forall_cons_iff in H' as [Ht Hws].
  apply Forall_cons_iff in Hm as [Hmt _].
  destruct ws as [|t' ws]; [simpl in Hk; lia|].
  destruct Hone as [Hone|[_ Hone]]; [lia|exact Hs| |].
  - apply (cut_at_separator _ k space H); [|exact isspace_space].
    rewrite join_cons by discriminate.
    rewrite nth_error_app2 by lia.
    replace (k - length t)%nat with 0%nat by lia. reflexivity.
  - exists [t], (t' :: ws). repeat split; try discriminate.
    + rewrite join_cons by discriminate.
      rewrite firstn_app_beyond by lia.
      replace (k - length t)%nat with 1%nat by lia.
      change (firstn 1 ([space] ++ ?x)) with [space].
      apply strip_token_space, Ht.
    + rewrite join_cons by discriminate.
      rewrite skipn_app, skipn_all2 by lia.
      replace (k - length t)%nat with 1%nat by lia.
      change (skipn 1 ([space] ++ ?x)) with x.
      apply lstrip_join, Hws.
Qed.

(** ** Every chunk is a group of whole words *)

(** When no word is longer than the chunk size, the chunk that is cut from
    the front is made of the first words of the text, and what is left is
    made of the other words. *)
Lemma chunk_step ws chunk_size :
  1 <= chunk_size -> Forall is_token ws ->
  Forall (fun t => len t <= chunk_size) ws ->
  chunk_size < len (join [space] ws) ->
  exists a b,
    ws = a ++ b /\ a <> [] /\ b <> []
    /\ strip (firstn (Z.to_nat
                        (best_split_of
                           (firstn (Z.to_nat chunk_size) (join [space] ws))
                           chunk_size))
                     (join [space] ws)) = join [space] a
    /\ lstrip (skipn (Z.to_nat
                        (best_split_of
                           (firstn (Z.to_nat chunk_size) (join [space] ws))
                           chunk_size))
                     (join [space] ws)) = join [space] b.
Proof.
  intros Hc H Hm Hl.
  set (r := join [space] ws) in *. set (k := Z.to_nat chunk_size).
  set (w := firstn k r).
  assert (Hm' : Forall (fun t => (length t <= k)%nat) ws).
  { revert Hm. apply Forall_impl. intros t Ht. unfold len in Ht. lia. }
  assert (Hk : (k < length r)%nat) by (unfold len in Hl; lia).
  unfold best_split_of. cbv zeta.
  destruct (sentence_split w =? -1) eqn:E.
  - destruct (1 <? len (split w)) eqn:E2.
    + apply Z.ltb_lt in E2.
      destruct (word_boundary k ws H Hm' k) as [Ha _];
        [change (k <= length r)%nat; lia
        |change (1 < length (split w))%nat; unfold len in E2; lia|].
      fold r in Ha. fold w in Ha.
      unfold len. rewrite Nat2Z.id.
      apply (cut_at_separator ws _ space H); [|exact isspace_space].
      exact (nth_error_firstn_Some _ _ _ _ Ha).
    + apply Z.ltb_ge in E2. fold k.
      apply hard_cut; try assumption.
      change (length (split w) <= 1)%nat. unfold len in E2. lia.
  - apply Z.eqb_neq in E.
    destruct (sentence_split_found w E) as [i [Ei [He Hi]]]. rewrite Ei.
    destruct (is_ending_at_chars w i) as [p [q [_ [Hq [_ Hg]]]]];
      [lia|exact He|].
    replace (Z.to_nat (i + 1)) with (S (Z.to_nat i)) by lia.
    apply (cut_at_separator ws _ q H); [|apply is_gap_space, Hg].
    exact (nth_error_firstn_Some _ _ _ _ Hq).
Qed.

Lemma join_tokens_nonempty ws : Forall is_token ws -> ws <> [] -> join [space] ws <> [].
Proof.
  intros H Hne. destruct (join_tokens_head ws H Hne) as [c [r [E _]]].
  rewrite E. discriminate.
Qed.

Lemma chunks_of_groups chunk_size :
  1 <= chunk_size ->
  forall fuel ws,
    Forall is_token ws -> Forall (fun t => len t <= chunk_size) ws ->
    (length (join [space] ws) < fuel)%nat ->
    exists groups,
      chunks_of fuel (join [space] ws) chunk_size = map (join [space]) groups
      /\ concat groups = ws /\ Forall (fun g => g <> []) groups.
Proof.
  intros Hc. induction fuel as [|fuel IH]; intros ws H Hm Hf; [lia|].
  destruct (list_eq_dec (list_eq_dec ascii_dec) ws []) as [->|Hne].
  - exists []. repeat split. constructor.
  - rewrite chunks_of_step by (apply join_tokens_nonempty; assumption).
    destruct (len (join [space] ws) <=? chunk_size) eqn:E.
    + exists [ws]. simpl. rewrite app_nil_r, (strip_join _ H).
      repeat split. constructor; [exact Hne|constructor].
    + apply Z.leb_gt in E. cbv zeta.
      destruct (chunk_step ws chunk_size Hc H Hm E)
        as [a [b [Eab [Ha [Hb [Hs Hl]]]]]].
      rewrite Hs, Hl.
      assert (HB : Forall is_token b)
        by (rewrite Eab in H; apply Forall_app in H; tauto).
      assert (HmB : Forall (fun t => len t <= chunk_size) b)
        by (rewrite Eab in Hm; apply Forall_app in Hm; tauto).
      destruct (IH b HB HmB) as [groups [Eg [Ec Hg]]].
      { rewrite Eab, join_app, !length_app in Hf by assumption.
        change (length [space]) with 1%nat in Hf. lia. }
      exists (a :: groups). simpl. rewrite Eg, Ec.
      repeat split; [symmetry; exact Eab|]. constructor; assumption.
Qed.

Lemma join_concat sep groups :
  Forall (fun g => g <> []) groups ->
  join sep (map (join sep) groups) = join sep (concat groups).
Proof.
  induction 1 as [|g gs Hg Hgs IH]; [reflexivity|].
  destruct gs as [|g' gs].
  - simpl. rewrite app_nil_r. reflexivity.
  - change (map (join sep) (g :: g' :: gs))
      with (join sep g :: map (join sep) (g' :: gs)).
    rewrite join_cons by discriminate. rewrite IH.
    change (concat (g :: g' :: gs)) with (g ++ concat (g' :: gs)).
    rewrite join_app; [reflexivity|exact Hg|].
    apply Forall_cons_iff in Hgs as [Hg' _].
    destruct g'; [contradiction|discriminate].
Qed.

Lemma drop_blank_groups groups :
  Forall (Forall is_token) groups -> Forall (fun g => g <> []) groups ->
  drop_blank_chunks (map (join [space]) groups) = map (join [space]) groups.
Proof.
  induction 1 as [|g gs Hg Hgs IH]; intros Hne; [reflexivity|].
  apply Forall_cons_iff in Hne as [Hgne Hne].
  destruct (join_tokens_head g Hg Hgne) as [c [r [E Hc]]].
  simpl map. rewrite <- (strip_join g Hg), E.
  rewrite (drop_blank_keeps _ _ _ Hc), <- E, (strip_join g Hg).
  f_equal. apply IH, Hne.
Qed.

(** No word of the sanitized text has more than 50 characters. *)
Lemma clean_words_short s chunk_size :
  max_word_length <= chunk_size ->
  Forall (fun word => len word <= chunk_size) (split (clean_text_for_tts s)).
Proof.
  intros Hc. pose proof (clean_words_ok s) as H.
  rewrite clean_text_join, split_join_tokens
    by (apply clean_words_tokens, H).
  revert H. apply Forall_impl. intros w [_ [_ Hl]]. lia.
Qed.

Lemma normalize_clean s :
  strip (fix_multiple_spaces (clean_text_for_tts s)) = clean_text_for_tts s.
Proof.
  pose proof (clean_words_tokens _ (clean_words_ok s)) as Ht.
  rewrite clean_text_join. unfold fix_multiple_spaces.
  rewrite (collapse_tokens _ Ht). apply strip_join, Ht.
Qed.

(** When no word of the sanitized text is longer than the chunk size, the
    chunks are the sanitized text cut at some of its separators. *)
Lemma splitter_joins s chunk_size :
  Forall (fun word => len word <= chunk_size) (clean_words s) ->
  exists chunks,
    smart_text_splitter s chunk_size = Returns chunks
    /\ join [space] chunks = clean_text_for_tts s.
Proof.
  intros Hm. pose proof (clean_words_tokens _ (clean_words_ok s)) as Ht.
  destruct (clean_words s) as [|t ws] eqn:Ew.
  - unfold smart_text_splitter, smart_text_splitter_fuel.
    rewrite clean_text_join, Ew. simpl join. change (len (@nil ascii)) with 0.
    destruct (0 <=? chunk_size); eexists; split; reflexivity.
  - assert (Hc : 1 <= chunk_size).
    { apply Forall_cons_iff in Hm as [Hm _].
      apply Forall_cons_iff in Ht as [[Hne _] _].
      destruct t; [contradiction|]. rewrite len_cons in Hm.
      pose proof (len_nonneg t). lia. }
    rewrite (smart_text_splitter_positive _ _ Hc).
    eexists. split; [reflexivity|].
    destruct (len (clean_text_for_tts s) <=? chunk_size); [reflexivity|].
    rewrite clean_text_join, Ew.
    destruct (chunks_of_groups chunk_size Hc
                (S (length (join [space] (t :: ws)))) (t :: ws) Ht Hm)
      as [groups [Eg [Ec Hg]]]; [lia|].
    rewrite Eg, drop_blank_groups, join_concat, Ec; try assumption.
    + reflexivity.
    + apply Forall_concat. rewrite Ec. exact Ht.
Qed.

(** ** One word alone *)

Lemma skipn_nospace k w : nospace w -> nospace (skipn k w).
Proof.
  unfold nospace. rewrite !Forall_forall. intros H c Hc.
  apply H. rewrite <- (firstn_skipn k w). apply in_or_app. right. exact Hc.
Qed.

Lemma firstn_token k t : is_token t -> (0 < k)%nat -> is_token (firstn k t).
Proof.
  intros [Hne Hns] Hk. split; [|apply firstn_nospace, Hns].
  destruct t; [contradiction|]. destruct k; [lia|discriminate].
Qed.

Lemma skipn_token k t : is_token t -> (k < length t)%nat -> is_token (skipn k t).
Proof.
  intros [Hne Hns] Hk. split; [|apply skipn_nospace, Hns].
  intros E. apply (f_equal (@length ascii)) in E.
  rewrite length_skipn in E. simpl in E. lia.
Qed.

Lemma lstrip_token t : is_token t -> lstrip t = t.
Proof.
  intros H. exact (lstrip_join [t] (Forall_cons _ H (Forall_nil _))).
Qed.

Lemma best_split_of_token w chunk_size :
  is_token w -> best_split_of w chunk_size = chunk_size.
Proof.
  intros H. unfold best_split_of.
  rewrite sentence_split_none
    by (intros i Hi; apply nospace_no_ending; [apply H|lia]).
  rewrite (split_token _ H). reflexivity.
Qed.

Lemma clean_word_unchanged t : is_clean_word t -> clean_text_for_tts t = t.
Proof.
  intros H. rewrite clean_text_join.
  change t with (join [space] [t]) at 1.
  rewrite clean_words_join; [reflexivity|]. constructor; [exact H|constructor].
Qed.

Lemma long_word_dropped t :
  is_token t -> Forall (fun c => kept c = true) t -> max_word_length < len t ->
  clean_text_for_tts t = [].
Proof.
  intros Ht Hk Hl. unfold clean_text_for_tts, fix_multiple_spaces.
  rewrite (replace_problematic_id _ Hk).
  change t with (join [space] [t]) at 1.
  rewrite collapse_tokens by (constructor; [exact Ht|constructor]).
  simpl join. rewrite (split_token _ Ht).
  unfold remove_long_words. simpl filter.
  apply Z.ltb_lt in Hl. rewrite Hl. reflexivity.
Qed.

(** ** A text of two chunks *)




(** ** The last line of the splitter *)

Lemma drop_blank_nonblank chunks :
  Forall (fun chunk => strip chunk <> []) (drop_blank_chunks chunks).
Proof.
  unfold drop_blank_chunks. apply Forall_forall. intros chunk H.
  apply filter_In in H as [_ H]. apply nonempty_true in H. exact H.
Qed.

(** What the loop returns has no chunk that is empty after trimming. *)
Lemma chunks_nonblank_on_loop_path s chunk_size chunks :
  1 <= chunk_size -> chunk_size < len (clean_text_for_tts s) ->
  smart_text_splitter s chunk_size = Returns chunks ->
  Forall (fun chunk => strip chunk <> []) chunks.
Proof.
  intros Hc Hl E. rewrite (smart_text_splitter_positive _ _ Hc) in E.
  destruct (len (clean_text_for_tts s) <=? chunk_size) eqn:El;
    [apply Z.leb_le in El; lia|].
  injection E as <-. apply drop_blank_nonblank.
Qed.

(** ** The fuel *)

Lemma lstrip_skipn_length k rest :
  (length (lstrip (skipn k rest)) <= length rest - k)%nat.
Proof.
  pose proof (lstrip_length (skipn k rest)) as H.
  rewrite length_skipn in H. exact H.
Qed.

Lemma chunks_of_fuel chunk_size :
  1 <= chunk_size ->
  forall fuel fuel' rest,
    (length rest < fuel)%nat -> (length rest < fuel')%nat ->
    chunks_of fuel rest chunk_size = chunks_of fuel' rest chunk_size.
Proof.
  intros Hc. induction fuel as [|fuel IH]; intros fuel' rest Hf Hf'; [lia|].
  destruct fuel' as [|fuel']; [lia|].
  destruct rest as [|c r] eqn:Er; [reflexivity|]. rewrite <- Er in *.
  assert (Hne : rest <> []) by (rewrite Er; discriminate).
  rewrite !chunks_of_step by exact Hne.
  destruct (len rest <=? chunk_size); [reflexivity|]. cbv zeta.
  set (w := firstn (Z.to_nat chunk_size) rest).
  assert (Hw : len w <= chunk_size).
  { unfold w. rewrite len_firstn by lia. lia. }
  pose proof (best_split_bounds w chunk_size Hc Hw) as Hb.
  pose proof (lstrip_skipn_length (Z.to_nat (best_split_of w chunk_size)) rest).
  assert (Hpos : (0 < length rest)%nat) by (rewrite Er; simpl; lia).
  f_equal. apply IH; lia.
Qed.

(** More fuel than [smart_text_splitter] takes changes nothing. *)
Lemma smart_text_splitter_fuel_enough fuel s chunk_size :
  1 <= chunk_size -> (length (clean_text_for_tts s) < fuel)%nat ->
  smart_text_splitter_fuel fuel s chunk_size = smart_text_splitter s chunk_size.
Proof.
  intros Hc Hf. unfold smart_text_splitter, smart_text_splitter_fuel.
  destruct (len (clean_text_for_tts s) <=? chunk_size); [reflexivity|].
  pose proof (len_nonneg (clean_text_for_tts s)).
  rewrite !split_loop_chunks_of by (unfold len; lia).
  simpl app. rewrite (chunks_of_fuel chunk_size Hc fuel
                        (S (length (clean_text_for_tts s)))) by lia.
  reflexivity.
Qed.

Lemma chunks_within_size_returns s chunk_size :
  1 <= chunk_size -> exists chunks, smart_text_splitter s chunk_size = Returns chunks.
Proof.
  intros Hc. rewrite (smart_text_splitter_positive _ _ Hc). eauto.
Qed.

(* ================================================================== *)
(** * The splitter and the sanitizer: properties *)
(* ================================================================== *)

Example split_hello :
  smart_text_splitter hello 20
  = Returns [T "Hello world."; T "This is a test!"; T "Another sentence?"].
Proof. vm_compute. reflexivity. Qed.

(** C1: for every text and every chunk size of at least 1 the splitter
    returns, and every chunk of the sequence it returns has at most
    [chunk_size] characters. *)
Theorem chunks_within_chunk_size s chunk_size :
  1 <= chunk_size ->
  exists chunks,
    smart_text_splitter s chunk_size = Returns chunks
    /\ Forall (fun chunk => len chunk <= chunk_size) chunks.
Proof.
  intros Hc. rewrite (smart_text_splitter_positive _ _ Hc).
  eexists. split; [reflexivity|].
  destruct (len (clean_text_for_tts s) <=? chunk_size) eqn:E.
  - apply Z.leb_le in E. repeat constructor. exact E.
  - apply filter_Forall, chunks_of_bounded, Hc.
Qed.

Lemma chunks_within_chunk_size_witness :
  1 <= 20
  /\ exists chunks,
       smart_text_splitter hello 20 = Returns chunks
       /\ Forall (fun chunk => len chunk <= 20) chunks.
Proof. split; [lia|apply (chunks_within_chunk_size hello 20); lia]. Defined.

(** C5, at the input on which the code breaks it: a text that the
    sanitizer empties is returned as one chunk, the empty string, by the
    early [return [text]], which the filter of the last line never sees. *)
Theorem blank_chunk_on_early_return :
  smart_text_splitter (T "@") 1800 = Returns [[]]
  /\ nonempty (strip (@nil ascii)) = false.
Proof. split; vm_compute; reflexivity. Qed.

(** C6: the sanitizer is idempotent. *)
Theorem clean_text_for_tts_idempotent s :
  clean_text_for_tts (clean_text_for_tts s) = clean_text_for_tts s.
Proof.
  rewrite (clean_text_join s), clean_text_join, clean_words_join;
    [reflexivity|apply clean_words_ok].
Qed.

(** C7: a text of at most [chunk_size] characters is returned as exactly
    one chunk, the sanitized text trimmed. *)
Theorem short_text_single_chunk s chunk_size :
  1 <= chunk_size -> len s <= chunk_size ->
  smart_text_splitter s chunk_size = Returns [strip (clean_text_for_tts s)].
Proof.
  intros _ Hs. unfold smart_text_splitter, smart_text_splitter_fuel.
  pose proof (clean_text_length s) as Hl.
  destruct (len (clean_text_for_tts s) <=? chunk_size) eqn:E;
    [|apply Z.leb_gt in E; lia].
  rewrite (strip_trimmed _ (clean_text_trimmed s)). reflexivity.
Qed.

Lemma short_text_single_chunk_witness :
  1 <= 1800 /\ len (T "  Hello,   world! ") <= 1800
  /\ smart_text_splitter (T "  Hello,   world! ") 1800
     = Returns [strip (clean_text_for_tts (T "  Hello,   world! "))].
Proof.
  split; [lia|]. split; [vm_compute; discriminate|].
  apply (short_text_single_chunk (T "  Hello,   world! ") 1800);
    [lia|vm_compute; discriminate].
Defined.

(** C8 fails: the sanitizer drops a word of 100 characters, so that the
    splitter has nothing to cut and returns one empty chunk. *)
Lemma long_token_is_dropped :
  smart_text_splitter (repeat "a"%char 100) 50 = Returns [[]]
  /\ ~ (exists c1 c2,
          smart_text_splitter (repeat "a"%char 100) 50 = Returns [c1; c2]
          /\ len c1 = 50 /\ len c2 = 50).
Proof.
  assert (E : smart_text_splitter (repeat "a"%char 100) 50 = Returns [[]])
    by (vm_compute; reflexivity).
  split; [exact E|]. intros [c1 [c2 [H _]]]. rewrite E in H. discriminate.
Qed.




(* ================================================================== *)
(** * The conversion functions: properties *)
(* ================================================================== *)

Lemma fold_left_app_concat {A : Type} (l : list (list A)) acc :
  fold_left (fun a b => a ++ b) l acc = acc ++ concat l.
Proof.
  revert acc. induction l as [|x l IH]; intros acc; simpl.
  - symmetry. apply app_nil_r.
  - rewrite IH, app_assoc. reflexivity.
Qed.

Lemma receive_concat pieces : receive pieces = concat pieces.
Proof. unfold receive. rewrite fold_left_app_concat. reflexivity. Qed.

Lemma write_all_concat audio_chunks : write_all audio_chunks = concat audio_chunks.
Proof. unfold write_all. rewrite fold_left_app_concat. reflexivity. Qed.

Section ConversionProperties.

Variable service : Type.
Variable tts : service -> text -> stream * service.

(** The loop makes one request per chunk, in order, and keeps the
    buffers of the requests that succeed, in order. *)
Lemma process_chunks_spec chunks sv audio_chunks sent :
  fst (process_chunks service tts chunks sv audio_chunks sent)
  = (audio_chunks ++ flat_map buffer_of (answers service tts chunks sv),
     sent ++ chunks).
Proof.
  revert sv audio_chunks sent.
  induction chunks as [|chunk rest IH]; intros sv audio_chunks sent; simpl.
  - rewrite !app_nil_r. reflexivity.
  - destruct (tts sv chunk) as [answer sv']. simpl.
    destruct answer as [pieces|pieces]; rewrite IH; simpl;
      rewrite <- !app_assoc; [rewrite receive_concat|]; reflexivity.
Qed.

Lemma convert_large_runs content chunk_size sv chunks :
  1 <= chunk_size -> strip content <> [] ->
  smart_text_splitter (strip content) chunk_size = Returns chunks ->
  exists r sv',
    convert_large_text_to_speech service tts (Some content) chunk_size sv
    = Returns (r, sv')
    /\ success r = true
    /\ requests r = chunks
    /\ output r
       = Some (concat (flat_map buffer_of (answers service tts chunks sv))).
Proof.
  intros Hc Hne E. unfold convert_large_text_to_speech.
  apply nonempty_true in Hne. rewrite Hne, E. simpl negb. cbv iota.
  pose proof (splitter_chunks_nonempty _ _ _ Hc E) as Hch.
  destruct chunks as [|chunk rest]; [contradiction|].
  pose proof (process_chunks_spec (chunk :: rest) sv [] []) as Hp.
  destruct (process_chunks service tts (chunk :: rest) sv [] [])
    as [[audio_chunks sent] sv'].
  simpl fst in Hp. injection Hp as Ha Hs.
  eexists. exists sv'. split; [reflexivity|]. simpl.
  rewrite write_all_concat, Ha, Hs. auto.
Qed.

(** C2: whatever requests fail, the conversion goes through every chunk
    of the splitter, in order, returns success, and writes exactly the
    audio buffers of the chunks whose request succeeded, concatenated in
    the order of the chunks. *)
Theorem failed_chunks_are_skipped content chunk_size sv :
  1 <= chunk_size -> strip content <> [] ->
  exists chunks r sv',
    smart_text_splitter (strip content) chunk_size = Returns chunks
    /\ convert_large_text_to_speech service tts (Some content) chunk_size sv
       = Returns (r, sv')
    /\ success r = true
    /\ requests r = chunks
    /\ output r
       = Some (concat (flat_map buffer_of (answers service tts chunks sv))).
Proof.
  intros Hc Hne.
  destruct (chunks_within_size_returns (strip content) chunk_size Hc)
    as [chunks E].
  destruct (convert_large_runs content chunk_size sv chunks Hc Hne E)
    as [r [sv' H]].
  exists chunks, r, sv'. split; [exact E|exact H].
Qed.

(** C4, amended: the strategy is chosen by the length of the text as it
    is read from the file, before trimming and sanitizing.  Up to 2000
    characters the sanitized text is sent as one request and the splitter
    is not run; above, the chunks of the splitter are sent. *)
Theorem strategy_by_raw_length API_KEY MODEL_ID content sv :
  API_KEY <> api_key_placeholder -> MODEL_ID <> model_id_placeholder ->
  strip content <> [] ->
  (len content <= 2000 ->
   exists r sv',
     main service tts API_KEY MODEL_ID (Some content) sv
     = Ran StandardConversion (Returns (r, sv'))
     /\ requests r = [clean_text_for_tts (strip content)])
  /\ (2000 < len content ->
      exists chunks r sv',
        smart_text_splitter (strip content) CHUNK_SIZE = Returns chunks
        /\ main service tts API_KEY MODEL_ID (Some content) sv
           = Ran SmartChunking (Returns (r, sv'))
        /\ requests r = chunks).
Proof.
  intros Hk Hm Hne. unfold main.
  apply String.eqb_neq in Hk, Hm. rewrite Hk, Hm. simpl orb. cbv iota.
  split; intros Hl.
  - destruct (2000 <? len content) eqn:E; [apply Z.ltb_lt in E; lia|].
    unfold convert_text_file_to_speech.
    apply nonempty_true in Hne. rewrite Hne. simpl negb. cbv iota.
    destruct (tts sv (clean_text_for_tts (strip content))) as [answer sv'].
    destruct answer; eexists; exists sv'; split; reflexivity.
  - destruct (2000 <? len content) eqn:E; [|apply Z.ltb_ge in E; lia].
    assert (Hc : 1 <= CHUNK_SIZE) by (unfold CHUNK_SIZE; lia).
    destruct (chunks_within_size_returns (strip content) CHUNK_SIZE Hc)
      as [chunks Ec].
    destruct (convert_large_runs content CHUNK_SIZE sv chunks Hc Hne Ec)
      as [r [sv' [Er [_ [Hr _]]]]].
    exists chunks, r, sv'. rewrite Er. auto.
Qed.

End ConversionProperties.

Lemma failed_chunks_are_skipped_witness :
  1 <= 25 /\ strip five_sentences <> []
  /\ exists chunks r sv',
       smart_text_splitter (strip five_sentences) 25 = Returns chunks
       /\ convert_large_text_to_speech nat (echo 2) (Some five_sentences) 25 0%nat
          = Returns (r, sv')
       /\ success r = true
       /\ requests r = chunks
       /\ output r
          = Some (concat (flat_map buffer_of (answers nat (echo 2) chunks 0%nat))).
Proof.
  split; [lia|]. split; [vm_compute; discriminate|].
  apply (failed_chunks_are_skipped nat (echo 2) five_sentences 25 0%nat);
    [lia|vm_compute; discriminate].
Defined.

(** The example of the specification: five chunks, the request of the
    third one fails, and the output is the audio of the other four, in
    order. *)
Example one_failure_among_five :
  smart_text_splitter five_sentences 25
  = Returns [T "One two three four."; T "Five six seven.";
             T "Eight nine ten eleven."; T "Twelve thirteen.";
             T "Fourteen fifteen."]
  /\ exists r,
       convert_large_text_to_speech nat (echo 2) (Some five_sentences) 25 0%nat
       = Returns (r, 5%nat)
       /\ success r = true
       /\ output r
          = Some (map byte_of_ascii
                      (T "One two three four.Five six seven.Twelve thirteen.Fourteen fifteen.")).
Proof.
  split; [vm_compute; reflexivity|].
  eexists. split; [vm_compute; reflexivity|]. split; reflexivity.
Qed.

(** C4 fails: a file of 2001 characters whose sanitized text has 1999 is
    given to the splitter and sent as two chunks. *)
Lemma strategy_ignores_sanitized_length :
  len (clean_text_for_tts doc2001) <= 2000
  /\ exists r sv',
       main nat (echo 99) "key" "model" (Some doc2001) 0%nat
       = Ran SmartChunking (Returns (r, sv'))
       /\ length (requests r) = 2%nat.
Proof.
  split; [vm_compute; discriminate|].
  eexists. eexists. split; vm_compute; reflexivity.
Qed.

Lemma strategy_by_raw_length_witness :
  "key"%string <> api_key_placeholder /\ "model"%string <> model_id_placeholder
  /\ strip doc2001 <> []
  /\ (len doc2001 <= 2000 ->
      exists r sv',
        main nat (echo 99) "key" "model" (Some doc2001) 0%nat
        = Ran StandardConversion (Returns (r, sv'))
        /\ requests r = [clean_text_for_tts (strip doc2001)])
  /\ (2000 < len doc2001 ->
      exists chunks r sv',
        smart_text_splitter (strip doc2001) CHUNK_SIZE = Returns chunks
        /\ main nat (echo 99) "key" "model" (Some doc2001) 0%nat
           = Ran SmartChunking (Returns (r, sv'))
        /\ requests r = chunks).
Proof.
  assert (Hk : "key"%string <> api_key_placeholder)
    by (apply String.eqb_neq; reflexivity).
  assert (Hm : "model"%string <> model_id_placeholder)
    by (apply String.eqb_neq; reflexivity).
  assert (Hne : strip doc2001 <> []) by (vm_compute; discriminate).
  split; [exact Hk|]. split; [exact Hm|]. split; [exact Hne|].
  exact (strategy_by_raw_length nat (echo 99) "key" "model" doc2001 0%nat
                                Hk Hm Hne).
Defined.

(* ================================================================== *)
(** * The chunks and the sanitized text *)
(* ================================================================== *)

(** C3 fails: a word longer than the chunk size is cut in two, and joining
    the two halves with a space does not give the word back. *)
Lemma hard_cut_breaks_join_law :
  smart_text_splitter (T "abcdef") 3 = Returns [T "abc"; T "def"]
  /\ strip (fix_multiple_spaces (join [space] [T "abc"; T "def"]))
     <> clean_text_for_tts (T "abcdef").
Proof. split; [vm_compute; reflexivity|vm_compute; discriminate]. Qed.

(** C3, amended: when no word of the sanitized text is longer than the
    chunk size, which is so for every chunk size from 50 on, the splitter
    returns, and its chunks joined with single spaces, whitespace collapsed
    and the result trimmed, are the sanitized text. *)
Theorem chunks_join_to_text s chunk_size :
  max_word_length <= chunk_size
  \/ Forall (fun word => len word <= chunk_size) (split (clean_text_for_tts s)) ->
  exists chunks,
    smart_text_splitter s chunk_size = Returns chunks
    /\ strip (fix_multiple_spaces (join [space] chunks)) = clean_text_for_tts s.
Proof.
  intros H.
  assert (Hm : Forall (fun word => len word <= chunk_size) (clean_words s)).
  { destruct H as [H|H]; [apply (clean_words_short s) in H|];
      rewrite clean_text_join, split_join_tokens in H
        by (apply clean_words_tokens, clean_words_ok); exact H. }
  destruct (splitter_joins s chunk_size Hm) as [chunks [E Hj]].
  exists chunks. split; [exact E|]. rewrite Hj. apply normalize_clean.
Qed.

Lemma chunks_join_to_text_witness :
  (max_word_length <= 20
   \/ Forall (fun word => len word <= 20) (split (clean_text_for_tts hello)))
  /\ exists chunks,
       smart_text_splitter hello 20 = Returns chunks
       /\ strip (fix_multiple_spaces (join [space] chunks))
          = clean_text_for_tts hello.
Proof.
  assert (H : Forall (fun word => len word <= 20)
                     (split (clean_text_for_tts hello))).
  { apply Forall_forall. intros w Hw. vm_compute in Hw.
    repeat (destruct Hw as [<-|Hw]; [vm_compute; discriminate|]).
    contradiction. }
  split; [right; exact H|].
  apply (chunks_join_to_text hello 20). right. exact H.
Defined.

(** C8, amended: a word without whitespace that is made of characters the
    sanitizer keeps is dropped by the sanitizer when it has more than 50
    characters, such as one of 100 letters: its sanitized text is empty and
    the splitter does on it what it does on the empty text, so that no cut
    is made.  Such a word of [2 * n] characters, at most 50, is cut with
    chunk size [n] into its two halves of [n] characters each. *)
Theorem hard_cut_of_single_word long short n :
  is_token long -> Forall (fun c => kept c = true) long ->
  max_word_length < len long ->
  is_token short -> Forall (fun c => kept c = true) short ->
  len short <= max_word_length ->
  1 <= n -> len short = 2 * n ->
  (clean_text_for_tts long = []
   /\ forall chunk_size,
        smart_text_splitter long chunk_size = smart_text_splitter [] chunk_size)
  /\ smart_text_splitter short n
     = Returns [firstn (Z.to_nat n) short; skipn (Z.to_nat n) short]
  /\ len (firstn (Z.to_nat n) short) = n
  /\ len (skipn (Z.to_nat n) short) = n.
Proof.
  intros Hlt Hlk Hll Ht Hk Hshort Hn Hl.
  pose proof (long_word_dropped long Hlt Hlk Hll) as Hdrop.
  split.
  { split; [exact Hdrop|]. intros chunk_size.
    unfold smart_text_splitter, smart_text_splitter_fuel. rewrite Hdrop.
    reflexivity. }
  assert (Hlen : length short = (Z.to_nat n + Z.to_nat n)%nat)
    by (unfold len in Hl; lia).
  pose proof (firstn_token (Z.to_nat n) short Ht ltac:(lia)) as Hf.
  pose proof (skipn_token (Z.to_nat n) short Ht ltac:(lia)) as Hs.
  split; [|split; unfold len; rewrite ?length_firstn, ?length_skipn; lia].
  rewrite (smart_text_splitter_positive _ _ Hn).
  rewrite clean_word_unchanged by (repeat split; try apply Ht; assumption).
  destruct (len short <=? n) eqn:E; [apply Z.leb_le in E; lia|].
  rewrite chunks_of_step by apply Ht. rewrite E. cbv zeta.
  rewrite (best_split_of_token _ n Hf), (strip_token _ Hf), (lstrip_token _ Hs).
  rewrite chunks_of_last, (strip_token _ Hs);
    [|apply Hs|lia|unfold len; rewrite length_skipn; lia].
  f_equal.
  apply (drop_blank_groups
           [[firstn (Z.to_nat n) short]; [skipn (Z.to_nat n) short]]).
  - constructor; [constructor; [exact Hf|constructor]|].
    constructor; [constructor; [exact Hs|constructor]|constructor].
  - constructor; [discriminate|]. constructor; [discriminate|constructor].
Qed.

Lemma hard_cut_of_single_word_witness :
  is_token (repeat "a"%char 100)
  /\ Forall (fun c => kept c = true) (repeat "a"%char 100)
  /\ max_word_length < len (repeat "a"%char 100)
  /\ is_token (repeat "a"%char 50)
  /\ Forall (fun c => kept c = true) (repeat "a"%char 50)
  /\ len (repeat "a"%char 50) <= max_word_length
  /\ 1 <= 25 /\ len (repeat "a"%char 50) = 2 * 25
  /\ (clean_text_for_tts (repeat "a"%char 100) = []
      /\ forall chunk_size,
           smart_text_splitter (repeat "a"%char 100) chunk_size
           = smart_text_splitter [] chunk_size)
  /\ smart_text_splitter (repeat "a"%char 50) 25
     = Returns [firstn (Z.to_nat 25) (repeat "a"%char 50);
                skipn (Z.to_nat 25) (repeat "a"%char 50)]
  /\ len (firstn (Z.to_nat 25) (repeat "a"%char 50)) = 25
  /\ len (skipn (Z.to_nat 25) (repeat "a"%char 50)) = 25.
Proof.
  assert (Hns : forall k, Forall (fun c => isspace c = false)
                                 (repeat "a"%char k)).
  { intros k. apply Forall_forall. intros c Hc.
    apply repeat_spec in Hc. subst c. reflexivity. }
  assert (Hkept : forall k, Forall (fun c => kept c = true)
                                   (repeat "a"%char k)).
  { intros k. apply Forall_forall. intros c Hc.
    apply repeat_spec in Hc. subst c. reflexivity. }
  assert (Hlt : is_token (repeat "a"%char 100))
    by (split; [discriminate|apply Hns]).
  assert (Ht : is_token (repeat "a"%char 50))
    by (split; [discriminate|apply Hns]).
  assert (Hll : max_word_length < len (repeat "a"%char 100))
    by (vm_compute; reflexivity).
  assert (Hshort : len (repeat "a"%char 50) <= max_word_length)
    by (vm_compute; discriminate).
  split; [exact Hlt|]. split; [apply Hkept|]. split; [exact Hll|].
  split; [exact Ht|]. split; [apply Hkept|]. split; [exact Hshort|].
  split; [lia|]. split; [reflexivity|].
  apply (hard_cut_of_single_word (repeat "a"%char 100) (repeat "a"%char 50) 25
           Hlt (Hkept 100%nat) Hll Ht (Hkept 50%nat) Hshort);
    [lia|reflexivity].
Defined.




(* ================================================================== *)
(** * The sanitizer: what its result looks like *)
(* ================================================================== *)

Lemma split_collapse s :
  split_aux (collapse false s) = split_aux s
  /\ split (collapse true s) = split s.
Proof.
  induction s as [|c s [IH1 IH2]]; [split; reflexivity|].
  destruct (isspace c) eqn:E.
  - split.
    + simpl collapse. rewrite E.
      rewrite (split_aux_space _ _ isspace_space), (split_aux_space _ _ E), IH2.
      reflexivity.
    + simpl collapse. rewrite E, IH2. symmetry. apply split_space, E.
  - assert (H : forall b, split_aux (collapse b (c :: s)) = split_aux (c :: s)).
    { intros b. simpl. rewrite E. simpl. rewrite IH1, E. reflexivity. }
    split; [apply H|]. unfold split. rewrite H. reflexivity.
Qed.

Lemma split_fix_multiple_spaces s : split (fix_multiple_spaces s) = split s.
Proof.
  unfold fix_multiple_spaces, split. rewrite (proj1 (split_collapse s)).
  reflexivity.
Qed.

Lemma cons_word_app w a b : cons_word w (a ++ b) = cons_word w a ++ b.
Proof. destruct w; reflexivity. Qed.

Lemma split_aux_app_space x c y :
  isspace c = true ->
  split_aux (x ++ c :: y)
  = (fst (split_aux x), snd (split_aux x) ++ split y).
Proof.
  intros Hc. induction x as [|d x IH].
  - simpl app. rewrite (split_aux_space _ _ Hc). reflexivity.
  - simpl. rewrite IH. destruct (split_aux x) as [w ws]. simpl.
    destruct (isspace d); [rewrite cons_word_app|]; reflexivity.
Qed.

Lemma split_app_space x c y :
  isspace c = true -> split (x ++ c :: y) = split x ++ split y.
Proof.
  intros Hc. unfold split at 1 2. rewrite (split_aux_app_space _ _ _ Hc).
  destruct (split_aux x) as [w ws]. simpl. apply cons_word_app.
Qed.

Lemma split_clean_text s : split (clean_text_for_tts s) = clean_words s.
Proof.
  rewrite clean_text_join.
  apply split_join_tokens, clean_words_tokens, clean_words_ok.
Qed.

Lemma clean_words_app_space a c b :
  isspace c = true -> clean_words (a ++ c :: b) = clean_words a ++ clean_words b.
Proof.
  intros Hc. unfold clean_words, remove_long_words.
  rewrite !split_fix_multiple_spaces. unfold replace_problematic.
  rewrite map_app. simpl map. rewrite (isspace_kept _ Hc).
  rewrite (split_app_space _ _ _ Hc). apply filter_app.
Qed.

(** X1: the sanitized text has only characters of the white list, and its
    only whitespace character is the space. *)
Theorem sanitized_characters s :
  Forall (fun c => kept c = true /\ (isspace c = true -> c = space))
         (clean_text_for_tts s).
Proof.
  rewrite clean_text_join. apply join_Forall.
  - constructor; [split; [exact kept_space|reflexivity]|constructor].
  - pose proof (clean_words_ok s) as H. revert H. apply Forall_impl.
    intros w [[_ Hns] [Hk _]]. unfold nospace in Hns.
    rewrite Forall_forall in *. intros c Hc. split; [auto|].
    intros Hsp. rewrite (Hns c Hc) in Hsp. discriminate.
Qed.

(** X2: the sanitized text is its own words joined by single spaces: it
    has no whitespace at either end and no two spaces in a row. *)
Theorem sanitized_spacing s :
  join [space] (split (clean_text_for_tts s)) = clean_text_for_tts s.
Proof. rewrite split_clean_text. symmetry. apply clean_text_join. Qed.

(** X3: no word of the sanitized text has more than 50 characters. *)
Theorem sanitized_word_length s :
  Forall (fun word => len word <= max_word_length)
         (split (clean_text_for_tts s)).
Proof. apply clean_words_short. lia. Qed.

(** X4: the sanitizer never makes a text longer. *)
Theorem sanitizer_never_lengthens s : len (clean_text_for_tts s) <= len s.
Proof. exact (clean_text_length s). Qed.

(** X5: the words of the sanitized text are the words of the text after the
    replacement of the characters off the white list, without those of more
    than 50 characters, in the same order: collapsing and trimming the
    whitespace changes no word. *)
Theorem sanitizer_keeps_short_words s :
  split (clean_text_for_tts s)
  = remove_long_words (split (replace_problematic s)).
Proof.
  rewrite split_clean_text. unfold clean_words.
  rewrite split_fix_multiple_spaces. reflexivity.
Qed.

(** X6: sanitizing two texts with a whitespace character between them
    gives the words of the two sanitized texts, joined by single spaces. *)
Theorem sanitizer_of_two_parts a c b :
  isspace c = true ->
  clean_text_for_tts (a ++ c :: b)
  = join [space] (split (clean_text_for_tts a) ++ split (clean_text_for_tts b)).
Proof.
  intros Hc. rewrite !split_clean_text, clean_text_join.
  rewrite (clean_words_app_space _ _ _ Hc). reflexivity.
Qed.

Lemma sanitizer_of_two_parts_witness :
  isspace newline = true
  /\ clean_text_for_tts (T "  Hello, #1  " ++ newline :: T "big   world!")
     = join [space] (split (clean_text_for_tts (T "  Hello, #1  "))
                     ++ split (clean_text_for_tts (T "big   world!"))).
Proof.
  split; [reflexivity|].
  apply (sanitizer_of_two_parts (T "  Hello, #1  ") newline (T "big   world!")).
  reflexivity.
Defined.

(* ================================================================== *)
(** * The splitter: what its chunks look like *)
(* ================================================================== *)

Lemma chunks_of_stripped fuel rest chunk_size :
  Forall (fun chunk => strip chunk = chunk) (chunks_of fuel rest chunk_size).
Proof.
  revert rest. induction fuel as [|fuel IH]; intros rest; [constructor|].
  destruct rest as [|c r]; [constructor|].
  rewrite chunks_of_step by discriminate.
  destruct (len (c :: r) <=? chunk_size).
  - constructor; [apply strip_strip|constructor].
  - constructor; [apply strip_strip|apply IH].
Qed.

Lemma letters_app a b : letters (a ++ b) = letters a ++ letters b.
Proof. apply filter_app. Qed.

Lemma letters_cons c s :
  letters (c :: s) = if isspace c then letters s else c :: letters s.
Proof. unfold letters. simpl. destruct (isspace c); reflexivity. Qed.

Lemma letters_lstrip s : letters (lstrip s) = letters s.
Proof.
  induction s as [|c s IH]; [reflexivity|]. simpl lstrip.
  rewrite letters_cons. destruct (isspace c) eqn:E; [exact IH|].
  rewrite letters_cons, E. reflexivity.
Qed.

Lemma letters_rstrip s : letters (rstrip s) = letters s.
Proof.
  induction s as [|c s IH]; [reflexivity|]. simpl rstrip.
  rewrite (letters_cons c s), <- IH.
  destruct (rstrip s) as [|x r] eqn:E.
  - destruct (isspace c) eqn:Ec; [reflexivity|].
    rewrite letters_cons, Ec. reflexivity.
  - rewrite (letters_cons c (x :: r)). reflexivity.
Qed.

Lemma letters_strip s : letters (strip s) = letters s.
Proof. unfold strip. rewrite letters_rstrip. apply letters_lstrip. Qed.

Lemma chunks_of_letters chunk_size :
  1 <= chunk_size ->
  forall fuel rest,
    (length rest < fuel)%nat ->
    concat (map letters (chunks_of fuel rest chunk_size)) = letters rest.
Proof.
  intros Hc. induction fuel as [|fuel IH]; intros rest Hf; [lia|].
  destruct rest as [|c r] eqn:Er; [reflexivity|]. rewrite <- Er in *.
  assert (Hne : rest <> []) by (rewrite Er; discriminate).
  assert (Hpos : (0 < length rest)%nat) by (rewrite Er; simpl; lia).
  rewrite chunks_of_step by exact Hne.
  destruct (len rest <=? chunk_size).
  - simpl. rewrite app_nil_r. apply letters_strip.
  - cbv zeta. set (w := firstn (Z.to_nat chunk_size) rest).
    assert (Hw : len w <= chunk_size).
    { unfold w. rewrite len_firstn by lia. lia. }
    pose proof (best_split_bounds w chunk_size Hc Hw) as Hb.
    set (b := Z.to_nat (best_split_of w chunk_size)) in *.
    pose proof (lstrip_skipn_length b rest).
    simpl map. simpl concat.
    rewrite IH by (unfold b in *; lia).
    rewrite letters_strip, letters_lstrip, <- letters_app, firstn_skipn.
    reflexivity.
Qed.

Lemma drop_blank_letters chunks :
  concat (map letters (drop_blank_chunks chunks)) = concat (map letters chunks).
Proof.
  unfold drop_blank_chunks.
  induction chunks as [|chunk chunks IH]; [reflexivity|]. simpl filter.
  destruct (strip chunk) as [|c r] eqn:E; simpl.
  - rewrite IH, <- (letters_strip chunk), E. reflexivity.
  - rewrite IH. reflexivity.
Qed.

(** X7: for a chunk size of at least 1 the splitter returns at least one
    chunk, and no chunk is empty unless the sanitized text is. *)
Theorem splitter_chunks_not_empty s chunk_size :
  1 <= chunk_size ->
  exists chunks,
    smart_text_splitter s chunk_size = Returns chunks
    /\ chunks <> []
    /\ (clean_text_for_tts s <> [] -> Forall (fun chunk => chunk <> []) chunks).
Proof.
  intros Hc. destruct (chunks_within_size_returns s chunk_size Hc) as [chunks E].
  exists chunks. split; [exact E|].
  split; [exact (splitter_chunks_nonempty _ _ _ Hc E)|].
  intros Hne. rewrite (smart_text_splitter_positive _ _ Hc) in E.
  destruct (len (clean_text_for_tts s) <=? chunk_size).
  - injection E as <-. constructor; [exact Hne|constructor].
  - injection E as <-.
    pose proof (drop_blank_nonblank
                  (chunks_of (S (length (clean_text_for_tts s)))
                             (clean_text_for_tts s) chunk_size)) as H.
    revert H. apply Forall_impl. intros chunk H ->. apply H. reflexivity.
Qed.

Lemma splitter_chunks_not_empty_witness :
  1 <= 20
  /\ exists chunks,
       smart_text_splitter hello 20 = Returns chunks
       /\ chunks <> []
       /\ (clean_text_for_tts hello <> []
           -> Forall (fun chunk => chunk <> []) chunks).
Proof. split; [lia|apply (splitter_chunks_not_empty hello 20); lia]. Defined.

(** X8: for a chunk size of at least 1 every chunk is trimmed: it has no
    whitespace at its start or at its end. *)
Theorem splitter_chunks_trimmed s chunk_size :
  1 <= chunk_size ->
  exists chunks,
    smart_text_splitter s chunk_size = Returns chunks
    /\ Forall (fun chunk => strip chunk = chunk) chunks.
Proof.
  intros Hc. rewrite (smart_text_splitter_positive _ _ Hc).
  eexists. split; [reflexivity|].
  destruct (len (clean_text_for_tts s) <=? chunk_size).
  - constructor; [|constructor].
    apply strip_trimmed, clean_text_trimmed.
  - apply filter_Forall, chunks_of_stripped.
Qed.

Lemma splitter_chunks_trimmed_witness :
  1 <= 20
  /\ exists chunks,
       smart_text_splitter hello 20 = Returns chunks
       /\ Forall (fun chunk => strip chunk = chunk) chunks.
Proof. split; [lia|apply (splitter_chunks_trimmed hello 20); lia]. Defined.

(** X9: for a chunk size of at least 1, also when words are cut, the
    chunks hold every character of the sanitized text that is not
    whitespace, once and in order: the splitter drops whitespace only. *)
Theorem splitter_keeps_letters s chunk_size :
  1 <= chunk_size ->
  exists chunks,
    smart_text_splitter s chunk_size = Returns chunks
    /\ concat (map letters chunks) = letters (clean_text_for_tts s).
Proof.
  intros Hc. rewrite (smart_text_splitter_positive _ _ Hc).
  eexists. split; [reflexivity|].
  destruct (len (clean_text_for_tts s) <=? chunk_size).
  - simpl. apply app_nil_r.
  - rewrite drop_blank_letters. apply (chunks_of_letters _ Hc). lia.
Qed.

Lemma splitter_keeps_letters_witness :
  1 <= 3
  /\ exists chunks,
       smart_text_splitter (T "abcdef gh") 3 = Returns chunks
       /\ concat (map letters chunks)
          = letters (clean_text_for_tts (T "abcdef gh")).
Proof.
  split; [lia|apply (splitter_keeps_letters (T "abcdef gh") 3); lia].
Defined.

(** X12: with chunk size 0 the splitter never returns and never raises, on
    any text whose sanitized text is not empty: the loop does not advance. *)
Theorem zero_chunk_size_loops s :
  clean_text_for_tts s <> [] ->
  forall fuel, smart_text_splitter_fuel fuel s 0 = OutOfFuel.
Proof.
  intros Hne fuel. unfold smart_text_splitter_fuel.
  destruct (clean_text_trimmed s) as [E|[[c [r [E Hc]]] _]]; [contradiction|].
  rewrite E.
  destruct (len (c :: r) <=? 0) eqn:El.
  - apply Z.leb_le in El. rewrite len_cons in El.
    pose proof (len_nonneg r). lia.
  - rewrite (split_loop_zero _ _ _ _ Hc). reflexivity.
Qed.

Lemma zero_chunk_size_loops_witness :
  clean_text_for_tts hello <> []
  /\ forall fuel, smart_text_splitter_fuel fuel hello 0 = OutOfFuel.
Proof.
  assert (H : clean_text_for_tts hello <> []) by (vm_compute; discriminate).
  split; [exact H|exact (zero_chunk_size_loops hello H)].
Defined.

(** ** Whole words *)

Lemma splitter_groups s chunk_size :
  Forall (fun word => len word <= chunk_size) (clean_words s) ->
  exists groups,
    smart_text_splitter s chunk_size = Returns (map (join [space]) groups)
    /\ concat groups = clean_words s
    /\ Forall (Forall is_token) groups.
Proof.
  intros Hm. pose proof (clean_words_tokens _ (clean_words_ok s)) as Ht.
  destruct (clean_words s) as [|t ws] eqn:Ew.
  - unfold smart_text_splitter, smart_text_splitter_fuel.
    rewrite clean_text_join, Ew. simpl join. change (len (@nil ascii)) with 0.
    destruct (0 <=? chunk_size).
    + exists [[]]. repeat split. repeat constructor.
    + exists []. repeat split. constructor.
  - assert (Hc : 1 <= chunk_size).
    { apply Forall_cons_iff in Hm as [Hm _].
      apply Forall_cons_iff in Ht as [[Hne _] _].
      destruct t; [contradiction|]. rewrite len_cons in Hm.
      pose proof (len_nonneg t). lia. }
    rewrite (smart_text_splitter_positive _ _ Hc).
    rewrite clean_text_join, Ew.
    destruct (len (join [space] (t :: ws)) <=? chunk_size).
    + exists [t :: ws]. simpl concat. rewrite app_nil_r.
      repeat split. constructor; [exact Ht|constructor].
    + destruct (chunks_of_groups chunk_size Hc
                  (S (length (join [space] (t :: ws)))) (t :: ws) Ht Hm)
        as [groups [Eg [Ec Hg]]]; [lia|].
      assert (Hgt : Forall (Forall is_token) groups)
        by (apply Forall_concat; rewrite Ec; exact Ht).
      exists groups. rewrite Eg, (drop_blank_groups _ Hgt Hg). auto.
Qed.

(** X10: when no word of the sanitized text is longer than the chunk size,
    no word is cut: the words of the chunks, chunk after chunk, are the
    words of the sanitized text, and inside a chunk they are separated by
    single spaces. *)
Theorem splitter_keeps_words_whole s chunk_size :
  Forall (fun word => len word <= chunk_size) (split (clean_text_for_tts s)) ->
  exists chunks,
    smart_text_splitter s chunk_size = Returns chunks
    /\ concat (map split chunks) = split (clean_text_for_tts s)
    /\ Forall (fun chunk => join [space] (split chunk) = chunk) chunks.
Proof.
  rewrite split_clean_text. intros Hm.
  destruct (splitter_groups s chunk_size Hm) as [groups [E [Ec Hg]]].
  exists (map (join [space]) groups). split; [exact E|].
  assert (Hs : map split (map (join [space]) groups) = groups).
  { clear E Ec. induction Hg as [|g gs Hgt _ IH]; [reflexivity|].
    simpl. rewrite IH, (split_join_tokens _ Hgt). reflexivity. }
  split; [rewrite Hs; exact Ec|].
  apply Forall_map. revert Hg. apply Forall_impl.
  intros g Hgt. rewrite (split_join_tokens _ Hgt). reflexivity.
Qed.

Lemma splitter_keeps_words_whole_witness :
  Forall (fun word => len word <= 20) (split (clean_text_for_tts hello))
  /\ exists chunks,
       smart_text_splitter hello 20 = Returns chunks
       /\ concat (map split chunks) = split (clean_text_for_tts hello)
       /\ Forall (fun chunk => join [space] (split chunk) = chunk) chunks.
Proof.
  assert (H : Forall (fun word => len word <= 20)
                     (split (clean_text_for_tts hello))).
  { apply Forall_forall. intros w Hw. vm_compute in Hw.
    repeat (destruct Hw as [<-|Hw]; [vm_compute; discriminate|]).
    contradiction. }
  split; [exact H|apply (splitter_keeps_words_whole hello 20 H)].
Defined.

(** ** Sentence endings come first *)

Lemma text_eqb_refl a : text_eqb a a = true.
Proof.
  induction a as [|x a IH]; [reflexivity|]. simpl.
  rewrite Ascii.eqb_refl. exact IH.
Qed.

Lemma is_mark_cases p :
  is_mark p = true -> p = "."%char \/ p = "!"%char \/ p = "?"%char.
Proof.
  unfold is_mark. simpl existsb. rewrite !orb_true_iff, !Ascii.eqb_eq.
  intros [H|[H|[H|H]]]; auto. discriminate.
Qed.

Lemma is_mark_nospace p : is_mark p = true -> isspace p = false.
Proof.
  intros H. destruct (is_mark_cases p H) as [-> | [-> | ->]]; reflexivity.
Qed.

Lemma is_ending_at_intro w i p :
  0 <= i -> nth_error w (Z.to_nat i) = Some p -> is_mark p = true ->
  nth_error w (S (Z.to_nat i)) = Some space -> is_ending_at w i = true.
Proof.
  intros Hi Hp Hm Hsp. unfold is_ending_at. apply existsb_exists.
  exists [p; space]. split.
  - destruct (is_mark_cases p Hm) as [-> | [-> | ->]]; simpl; auto.
  - change (len [p; space]) with 2. rewrite slice_nonneg by lia.
    rewrite (skipn_nth_error _ _ _ Hp), (skipn_nth_error _ _ _ Hsp).
    apply text_eqb_refl.
Qed.

Lemma find_map_seq_first (f : Z -> bool) (g : nat -> Z) n :
  forall s0 j,
    find f (map g (seq s0 n)) = Some j ->
    exists k0, (s0 <= k0 < s0 + n)%nat /\ j = g k0
               /\ forall k', (s0 <= k' < k0)%nat -> f (g k') = false.
Proof.
  induction n as [|n IH]; intros s0 j H; [discriminate|].
  simpl in H. destruct (f (g s0)) eqn:E.
  - injection H as <-. exists s0. split; [lia|]. split; [reflexivity|].
    intros k' Hk. lia.
  - destruct (IH (S s0) j H) as [k0 [Hk0 [Ej Hfirst]]].
    exists k0. split; [lia|]. split; [exact Ej|].
    intros k' Hk. destruct (Nat.eq_dec k' s0) as [->|Hne]; [exact E|].
    apply Hfirst. lia.
Qed.

(** The backward scan stops at the first match, which is the last one of
    the window. *)
Lemma find_range_down_first f start stop j :
  find f (range_down start stop) = Some j ->
  forall k, j < k <= start -> f k = false.
Proof.
  unfold range_down. intros H k Hk.
  destruct (find_map_seq_first f _ _ _ _ H) as [k0 [Hk0 [Ej Hfirst]]].
  replace k with (start - Z.of_nat (Z.to_nat (start - k))) by lia.
  apply Hfirst. lia.
Qed.

Lemma firstn_S_nth {A : Type} (l : list A) n x :
  nth_error l n = Some x -> firstn (S n) l = firstn n l ++ [x].
Proof.
  revert l. induction n as [|n IH]; intros [|y l] H; try discriminate.
  - injection H as ->. reflexivity.
  - simpl in H. rewrite firstn_cons, (IH _ H). reflexivity.
Qed.

Lemma clean_text_whitespace s c :
  In c (clean_text_for_tts s) -> isspace c = true -> c = space.
Proof.
  intros Hin Hsp.
  assert (H : Forall (fun c => isspace c = true -> c = space)
                     (clean_text_for_tts s)).
  { rewrite clean_text_join. apply join_Forall.
    - constructor; [reflexivity|constructor].
    - pose proof (clean_words_tokens _ (clean_words_ok s)) as H.
      revert H. apply Forall_impl. intros w [_ Hns]. unfold nospace in Hns.
      rewrite Forall_forall in *. intros x Hx Hxs.
      rewrite (Hns x Hx) in Hxs. discriminate. }
  rewrite Forall_forall in H. auto.
Qed.

(** X11: when the second half of the first window holds a sentence mark
    followed by a space, the first chunk is the sanitized text up to the
    last such mark of the window, the mark included. *)
Theorem first_chunk_ends_sentence s chunk_size i p :
  1 <= chunk_size < len (clean_text_for_tts s) ->
  chunk_size / 2 < i -> i + 1 < chunk_size ->
  nth_error (clean_text_for_tts s) (Z.to_nat i) = Some p ->
  is_mark p = true ->
  nth_error (clean_text_for_tts s) (S (Z.to_nat i)) = Some space ->
  exists j q rest,
    i <= j /\ j + 1 < chunk_size
    /\ nth_error (clean_text_for_tts s) (Z.to_nat j) = Some q
    /\ is_mark q = true
    /\ nth_error (clean_text_for_tts s) (S (Z.to_nat j)) = Some space
    /\ (forall k q',
           j < k -> k + 1 < chunk_size ->
           nth_error (clean_text_for_tts s) (Z.to_nat k) = Some q' ->
           is_mark q' = true ->
           nth_error (clean_text_for_tts s) (S (Z.to_nat k)) <> Some space)
    /\ smart_text_splitter s chunk_size
       = Returns (firstn (S (Z.to_nat j)) (clean_text_for_tts s) :: rest).
Proof.
  intros [Hc Hl] Hi1 Hi2 Hp Hm Hsp.
  rewrite (smart_text_splitter_positive _ _ Hc).
  pose proof (clean_text_trimmed s) as Htr.
  pose proof (clean_text_whitespace s) as Hws.
  remember (clean_text_for_tts s) as r eqn:Er. clear Er.
  set (k := Z.to_nat chunk_size). set (w := firstn k r).
  assert (Hlw : len w = chunk_size).
  { unfold w, k. rewrite len_firstn by lia. lia. }
  assert (Hw : forall n, (n < k)%nat -> nth_error w n = nth_error r n).
  { intros n Hn. unfold w. rewrite nth_error_firstn.
    apply Nat.ltb_lt in Hn. rewrite Hn. reflexivity. }
  assert (Hhalf : 0 <= chunk_size / 2) by (apply Z.div_pos; lia).
  assert (Hi0 : 0 <= i) by lia.
  assert (Hi : is_ending_at w i = true).
  { apply (is_ending_at_intro w i p Hi0); try assumption;
      rewrite Hw by (unfold k; lia); assumption. }
  destruct (find (is_ending_at w)
                 (range_down (len w - 1) (Z.max (len w / 2) 0)))
    as [j|] eqn:Ef.
  2: { exfalso. pose proof (find_none _ _ Ef i) as H.
       rewrite H in Hi; [discriminate|].
       apply range_down_In. rewrite Hlw. lia. }
  pose proof (find_some _ _ Ef) as [Hin Hj]. apply range_down_In in Hin.
  pose proof (find_range_down_first _ _ _ _ Ef) as Hfirst.
  rewrite Hlw in Hin, Hfirst.
  assert (Hij : i <= j).
  { destruct (Z_le_gt_dec i j) as [H|H]; [exact H|].
    rewrite Hfirst in Hi by lia. discriminate. }
  destruct (is_ending_at_chars w j) as [q [q' [Hq [Hq' [Hmq Hg]]]]];
    [lia|exact Hj|].
  assert (Hj2 : (S (Z.to_nat j) < k)%nat).
  { assert (H : nth_error w (S (Z.to_nat j)) <> None) by congruence.
    apply nth_error_Some in H. unfold len in Hlw. unfold k. lia. }
  rewrite Hw in Hq, Hq' by lia.
  assert (Eq' : q' = space).
  { apply Hws; [exact (nth_error_In _ _ Hq')|apply is_gap_space, Hg]. }
  subst q'.
  assert (Esplit : best_split_of w chunk_size = j + 1).
  { unfold best_split_of, sentence_split. rewrite Ef. cbv zeta.
    destruct (j + 1 =? -1) eqn:E; [apply Z.eqb_eq in E; lia|reflexivity]. }
  destruct Htr as [E|[[c [r' [E Hcs]]] _]].
  { rewrite E in Hl. unfold len in Hl. simpl in Hl. lia. }
  assert (Hstrip : strip (firstn (S (Z.to_nat j)) r)
                   = firstn (S (Z.to_nat j)) r).
  { apply strip_trimmed. right. split.
    - rewrite E, firstn_cons. eauto.
    - exists (firstn (Z.to_nat j) r), q.
      split; [apply firstn_S_nth, Hq|apply is_mark_nospace, Hmq]. }
  destruct (len r <=? chunk_size) eqn:El; [apply Z.leb_le in El; lia|].
  rewrite chunks_of_step by (rewrite E; discriminate).
  rewrite El. cbv zeta. fold k. fold w. rewrite Esplit.
  replace (Z.to_nat (j + 1)) with (S (Z.to_nat j)) by lia.
  rewrite Hstrip.
  exists j, q. eexists.
  split; [exact Hij|]. split; [unfold k in Hj2; lia|].
  split; [exact Hq|]. split; [exact Hmq|]. split; [exact Hq'|].
  split.
  - intros k' q' Hk1 Hk2 Hk3 Hk4 Hk5.
    assert (H : is_ending_at w k' = true).
    { apply (is_ending_at_intro w k' q'); try assumption; try lia;
        rewrite Hw by (unfold k; lia); assumption. }
    rewrite Hfirst in H by lia. discriminate.
  - f_equal. rewrite <- Hstrip at 1. rewrite E at 1. rewrite firstn_cons.
    rewrite (drop_blank_keeps _ _ _ Hcs), <- firstn_cons, <- E, Hstrip.
    reflexivity.
Qed.

Lemma first_chunk_ends_sentence_witness :
  1 <= 20 < len (clean_text_for_tts hello)
  /\ 20 / 2 < 11 /\ 11 + 1 < 20
  /\ nth_error (clean_text_for_tts hello) (Z.to_nat 11) = Some "."%char
  /\ is_mark "."%char = true
  /\ nth_error (clean_text_for_tts hello) (S (Z.to_nat 11)) = Some space
  /\ exists j q rest,
       11 <= j /\ j + 1 < 20
       /\ nth_error (clean_text_for_tts hello) (Z.to_nat j) = Some q
       /\ is_mark q = true
       /\ nth_error (clean_text_for_tts hello) (S (Z.to_nat j)) = Some space
       /\ (forall k q',
              j < k -> k + 1 < 20 ->
              nth_error (clean_text_for_tts hello) (Z.to_nat k) = Some q' ->
              is_mark q' = true ->
              nth_error (clean_text_for_tts hello) (S (Z.to_nat k))
              <> Some space)
       /\ smart_text_splitter hello 20
          = Returns (firstn (S (Z.to_nat j)) (clean_text_for_tts hello) :: rest).
Proof.
  assert (H1 : 1 <= 20 < len (clean_text_for_tts hello))
    by (split; [lia|vm_compute; reflexivity]).
  assert (H2 : 20 / 2 < 11) by (vm_compute; reflexivity).
  assert (H3 : nth_error (clean_text_for_tts hello) (Z.to_nat 11)
               = Some "."%char) by (vm_compute; reflexivity).
  assert (H4 : nth_error (clean_text_for_tts hello) (S (Z.to_nat 11))
               = Some space) by (vm_compute; reflexivity).
  split; [exact H1|]. split; [exact H2|]. split; [lia|].
  split; [exact H3|]. split; [reflexivity|]. split; [exact H4|].
  apply (first_chunk_ends_sentence hello 20 11 "."%char H1 H2);
    [lia|exact H3|reflexivity|exact H4].
Defined.

(* ================================================================== *)
(** * The conversion functions: failures and limits *)
(* ================================================================== *)

Lemma strip_blank content :
  Forall (fun c => isspace c = true) content -> strip content = [].
Proof. intros H. unfold strip. rewrite (lstrip_blank _ H). reflexivity. Qed.

Lemma splitter_chunks_bounded s chunk_size chunks :
  1 <= chunk_size -> smart_text_splitter s chunk_size = Returns chunks ->
  Forall (fun chunk => len chunk <= chunk_size) chunks.
Proof.
  intros Hc E. rewrite (smart_text_splitter_positive _ _ Hc) in E.
  destruct (len (clean_text_for_tts s) <=? chunk_size) eqn:El.
  - apply Z.leb_le in El.
    assert (E' : chunks = [clean_text_for_tts s]) by congruence.
    rewrite E'. repeat constructor. exact El.
  - pose proof (filter_Forall _ (fun chunk => nonempty (strip chunk)) _
                  (chunks_of_bounded (S (length (clean_text_for_tts s)))
                                     (clean_text_for_tts s) chunk_size Hc))
      as H.
    assert (E' : chunks
                 = drop_blank_chunks
                     (chunks_of (S (length (clean_text_for_tts s)))
                                (clean_text_for_tts s) chunk_size))
      by congruence.
    rewrite E'. exact H.
Qed.

Lemma len_strip s : len (strip s) <= len s.
Proof. pose proof (strip_length s). unfold len. lia. Qed.

Section ConversionLimits.

Variable service : Type.
Variable tts : service -> text -> stream * service.

Lemma no_buffer_when_all_fail :
  (forall sv chunk, exists pieces sv', tts sv chunk = (Broken pieces, sv')) ->
  forall chunks sv, flat_map buffer_of (answers service tts chunks sv) = [].
Proof.
  intros Hfail. induction chunks as [|chunk rest IH]; intros sv; [reflexivity|].
  simpl. destruct (Hfail sv chunk) as [pieces [sv' E]]. rewrite E.
  simpl. apply IH.
Qed.

(** X14: a file with nothing but whitespace is refused whatever its
    length: no request is made, no output file is opened, and the
    conversion reports failure. *)
Theorem blank_file_is_refused API_KEY MODEL_ID content sv :
  API_KEY <> api_key_placeholder -> MODEL_ID <> model_id_placeholder ->
  Forall (fun c => isspace c = true) content ->
  exists how,
    main service tts API_KEY MODEL_ID (Some content) sv
    = Ran how (Returns (failed, sv)).
Proof.
  intros Hk Hm Hb. unfold main.
  apply String.eqb_neq in Hk, Hm. rewrite Hk, Hm. simpl orb. cbv iota.
  destruct (2000 <? len content).
  - exists SmartChunking. unfold convert_large_text_to_speech.
    rewrite (strip_blank _ Hb). reflexivity.
  - exists StandardConversion. unfold convert_text_file_to_speech.
    rewrite (strip_blank _ Hb). reflexivity.
Qed.

(** X15: whatever the file and the service, [main] ends, and no request
    that it makes has more than 2000 characters; with the chunking strategy
    none has more than [CHUNK_SIZE] characters. *)
Theorem requests_within_limits API_KEY MODEL_ID input_file sv :
  match main service tts API_KEY MODEL_ID input_file sv with
  | Ran how (Returns (r, _)) =>
      Forall (fun request => len request <= 2000) (requests r)
      /\ (how = SmartChunking ->
          Forall (fun request => len request <= CHUNK_SIZE) (requests r))
  | Ran _ _ => False
  | _ => True
  end.
Proof.
  unfold main.
  destruct (String.eqb API_KEY api_key_placeholder
            || String.eqb MODEL_ID model_id_placeholder); [exact I|].
  destruct input_file as [content|]; [|exact I].
  assert (Hc : 1 <= CHUNK_SIZE) by (unfold CHUNK_SIZE; lia).
  destruct (2000 <? len content) eqn:El.
  - destruct (nonempty (strip content)) eqn:Hne.
    + apply nonempty_true in Hne.
      destruct (chunks_within_size_returns (strip content) CHUNK_SIZE Hc)
        as [chunks Ec].
      destruct (convert_large_runs service tts content CHUNK_SIZE sv chunks
                                   Hc Hne Ec) as [r [sv' [Er [_ [Hr _]]]]].
      rewrite Er, Hr.
      pose proof (splitter_chunks_bounded _ _ _ Hc Ec) as Hb.
      split; [|intros _; exact Hb].
      revert Hb. apply Forall_impl. unfold CHUNK_SIZE. intros; lia.
    + unfold convert_large_text_to_speech. rewrite Hne. simpl.
      split; [constructor|intros _; constructor].
  - apply Z.ltb_ge in El. unfold convert_text_file_to_speech.
    destruct (nonempty (strip content)); simpl;
      [|split; [constructor|intros _; constructor]].
    destruct (tts sv (clean_text_for_tts (strip content))) as [answer sv'].
    pose proof (clean_text_length (strip content)).
    pose proof (len_strip content).
    destruct answer; simpl; (split; [|discriminate]);
      (constructor; [lia|constructor]).
Qed.

(** X16: when the request of every chunk fails, the chunked conversion
    still returns success, and the output file it writes is empty. *)
Theorem all_requests_fail content chunk_size sv :
  1 <= chunk_size -> strip content <> [] ->
  (forall sv chunk, exists pieces sv', tts sv chunk = (Broken pieces, sv')) ->
  exists r sv',
    convert_large_text_to_speech service tts (Some content) chunk_size sv
    = Returns (r, sv')
    /\ success r = true /\ output r = Some [].
Proof.
  intros Hc Hne Hfail.
  destruct (chunks_within_size_returns (strip content) chunk_size Hc)
    as [chunks Ec].
  destruct (convert_large_runs service tts content chunk_size sv chunks
                               Hc Hne Ec) as [r [sv' [Er [Hs [_ Ho]]]]].
  exists r, sv'. rewrite (no_buffer_when_all_fail Hfail) in Ho. auto.
Qed.

(** X17: the conversion of a small file makes one request, with the
    sanitized text.  It writes the pieces it receives as they come, so that
    when the stream breaks the output file holds the pieces received before
    the failure, and the conversion reports failure. *)
Theorem small_conversion_single_request content sv :
  strip content <> [] ->
  exists r sv' answer,
    tts sv (clean_text_for_tts (strip content)) = (answer, sv')
    /\ convert_text_file_to_speech service tts (Some content) sv = (r, sv')
    /\ requests r = [clean_text_for_tts (strip content)]
    /\ match answer with
       | Completed pieces => success r = true /\ output r = Some (concat pieces)
       | Broken pieces => success r = false /\ output r = Some (concat pieces)
       end.
Proof.
  intros Hne. unfold convert_text_file_to_speech.
  apply nonempty_true in Hne. rewrite Hne. simpl negb. cbv iota.
  destruct (tts sv (clean_text_for_tts (strip content))) as [answer sv'].
  destruct answer as [pieces|pieces]; eexists; exists sv'; eexists;
    (split; [reflexivity|]); (split; [reflexivity|]);
    (split; [reflexivity|]); simpl; rewrite write_all_concat; auto.
Qed.

End ConversionLimits.

Lemma blank_file_is_refused_witness :
  "key"%string <> api_key_placeholder /\ "model"%string <> model_id_placeholder
  /\ Forall (fun c => isspace c = true) (repeat newline 2500)
  /\ exists how,
       main nat (echo 99) "key" "model" (Some (repeat newline 2500)) 0%nat
       = Ran how (Returns (failed, 0%nat)).
Proof.
  assert (Hk : "key"%string <> api_key_placeholder)
    by (apply String.eqb_neq; reflexivity).
  assert (Hm : "model"%string <> model_id_placeholder)
    by (apply String.eqb_neq; reflexivity).
  assert (Hb : Forall (fun c => isspace c = true) (repeat newline 2500)).
  { apply Forall_forall. intros c Hc. apply repeat_spec in Hc. subst c.
    reflexivity. }
  split; [exact Hk|]. split; [exact Hm|]. split; [exact Hb|].
  exact (blank_file_is_refused nat (echo 99) "key" "model"
                               (repeat newline 2500) 0%nat Hk Hm Hb).
Defined.

Lemma all_requests_fail_witness :
  1 <= 25 /\ strip five_sentences <> []
  /\ (forall sv chunk, exists pieces sv', refuse sv chunk = (Broken pieces, sv'))
  /\ exists r sv',
       convert_large_text_to_speech nat refuse (Some five_sentences) 25 0%nat
       = Returns (r, sv')
       /\ success r = true /\ output r = Some [].
Proof.
  assert (Hne : strip five_sentences <> []) by (vm_compute; discriminate).
  assert (Hf : forall (sv : nat) (chunk : text),
             exists pieces sv', refuse sv chunk = (Broken pieces, sv')).
  { intros sv chunk. exists [], (S sv). reflexivity. }
  split; [lia|]. split; [exact Hne|]. split; [exact Hf|].
  apply (all_requests_fail nat refuse five_sentences 25 0%nat); [lia| |];
    assumption.
Defined.

Lemma small_conversion_single_request_witness :
  strip hello <> []
  /\ exists r sv' answer,
       echo 0 0%nat (clean_text_for_tts (strip hello)) = (answer, sv')
       /\ convert_text_file_to_speech nat (echo 0) (Some hello) 0%nat = (r, sv')
       /\ requests r = [clean_text_for_tts (strip hello)]
       /\ match answer with
          | Completed pieces =>
              success r = true /\ output r = Some (concat pieces)
          | Broken pieces =>
              success r = false /\ output r = Some (concat pieces)
          end.
Proof.
  assert (Hne : strip hello <> []) by (vm_compute; discriminate).
  split; [exact Hne|].
  exact (small_conversion_single_request nat (echo 0) hello 0%nat Hne).
Defined.

(* ================================================================== *)
(** * The splitter: how many chunks *)
(* ================================================================== *)

Lemma half_bounds n : 2 * (n / 2) <= n < 2 * (n / 2) + 2.
Proof.
  pose proof (Z.div_mod n 2 ltac:(lia)).
  pose proof (Z.mod_pos_bound n 2 ltac:(lia)). lia.
Qed.

(** The split point is in the second half of the window, or at most one
    word and two characters before its end. *)
Lemma best_split_lower (m : nat) ws chunk_size :
  Forall is_token ws -> Forall (fun t => (length t <= m)%nat) ws ->
  1 <= chunk_size < len (join [space] ws) ->
  Z.min (chunk_size / 2 + 2) (chunk_size - Z.of_nat m - 2)
  <= best_split_of (firstn (Z.to_nat chunk_size) (join [space] ws)) chunk_size.
Proof.
  intros Ht Hm [Hc Hl].
  set (r := join [space] ws) in *. set (k := Z.to_nat chunk_size).
  set (w := firstn k r).
  assert (Hlw : len w = chunk_size).
  { unfold w, k. rewrite len_firstn by lia. lia. }
  unfold best_split_of. cbv zeta.
  destruct (sentence_split w =? -1) eqn:E.
  - destruct (1 <? len (split w)) eqn:E2; [|lia].
    apply Z.ltb_lt in E2.
    destruct (word_boundary m ws Ht Hm k) as [_ Hp];
      [change (k <= length r)%nat; unfold len in Hl; lia
      |change (1 < length (split w))%nat; unfold len in E2; lia|].
    fold r in Hp. fold w in Hp. unfold len. unfold k in Hp. lia.
  - apply Z.eqb_neq in E.
    destruct (sentence_split_found w E) as [i [-> [_ Hi]]].
    rewrite Hlw in Hi. lia.
Qed.

Lemma chunks_of_nonempty fuel rest chunk_size :
  rest <> [] -> (0 < fuel)%nat -> chunks_of fuel rest chunk_size <> [].
Proof.
  intros Hne Hf. destruct fuel as [|fuel]; [lia|].
  rewrite chunks_of_step by exact Hne.
  destruct (len rest <=? chunk_size); discriminate.
Qed.

Lemma removelast_cons {A : Type} (x : A) l :
  l <> [] -> removelast (x :: l) = x :: removelast l.
Proof. destruct l; [contradiction|reflexivity]. Qed.

Lemma length_removelast {A : Type} (l : list A) :
  length (removelast l) = (length l - 1)%nat.
Proof.
  induction l as [|x l IH]; [reflexivity|].
  destruct l as [|y l]; [reflexivity|].
  rewrite removelast_cons by discriminate. simpl length in *. lia.
Qed.

Lemma chunks_of_long (m : nat) chunk_size :
  1 <= chunk_size -> Z.of_nat m <= chunk_size ->
  forall fuel ws,
    Forall is_token ws -> Forall (fun t => (length t <= m)%nat) ws ->
    (length (join [space] ws) < fuel)%nat ->
    Forall (fun chunk =>
              Z.min (chunk_size / 2 + 1) (chunk_size - Z.of_nat m - 3)
              <= len chunk)
           (removelast (chunks_of fuel (join [space] ws) chunk_size)).
Proof.
  intros Hc Hmc. induction fuel as [|fuel IH]; intros ws Ht Hm Hf; [lia|].
  destruct (list_eq_dec (list_eq_dec ascii_dec) ws []) as [->|Hne];
    [constructor|].
  rewrite chunks_of_step by (apply join_tokens_nonempty; assumption).
  destruct (len (join [space] ws) <=? chunk_size) eqn:E; [constructor|].
  apply Z.leb_gt in E. cbv zeta.
  assert (Hm' : Forall (fun t => len t <= chunk_size) ws).
  { revert Hm. apply Forall_impl. intros t H. unfold len. lia. }
  pose proof (best_split_lower m ws chunk_size Ht Hm (conj Hc E)) as Hlow.
  destruct (chunk_step ws chunk_size Hc Ht Hm' E)
    as [a [b [Eab [Ha [Hb [Hs Hl]]]]]].
  set (bs := best_split_of (firstn (Z.to_nat chunk_size) (join [space] ws))
                           chunk_size) in *.
  pose proof (lstrip_skipn_length (Z.to_nat bs) (join [space] ws)) as Hlen.
  rewrite Hl in Hlen. rewrite Hs, Hl.
  assert (HB : Forall is_token b)
    by (rewrite Eab in Ht; apply Forall_app in Ht; tauto).
  assert (HmB : Forall (fun t => (length t <= m)%nat) b)
    by (rewrite Eab in Hm; apply Forall_app in Hm; tauto).
  assert (Hla : length (join [space] ws)
                = (length (join [space] a) + 1 + length (join [space] b))%nat).
  { rewrite Eab, join_app, !length_app by assumption. simpl length. lia. }
  rewrite removelast_cons.
  - constructor; [unfold len in *; lia|]. apply IH; try assumption. lia.
  - apply chunks_of_nonempty; [apply join_tokens_nonempty; assumption|].
    unfold len in E. lia.
Qed.

Lemma join_at_least h l :
  0 <= h -> Forall (fun chunk => h <= len chunk) l ->
  len l * h <= len (join [space] l).
Proof.
  intros Hh H. unfold len. rewrite join_length.
  assert (Ht : Z.of_nat (length l) * (h + 1) <= Z.of_nat (total l)).
  { induction H as [|x l Hx Hl IH]; [simpl; lia|].
    rewrite total_cons. simpl length. unfold len in Hx. nia. }
  destruct l as [|x l]; [simpl; lia|]. simpl length in *.
  rewrite total_cons in *. nia.
Qed.

(** X13: for a chunk size of at least 106, every chunk but the last has at
    least half the chunk size in characters, so that the chunks, the last
    one apart, are at most the length of the sanitized text divided by
    half the chunk size. *)
Theorem chunks_at_least_half s chunk_size :
  106 <= chunk_size ->
  exists chunks,
    smart_text_splitter s chunk_size = Returns chunks
    /\ Forall (fun chunk => chunk_size / 2 <= len chunk) (removelast chunks)
    /\ (len chunks - 1) * (chunk_size / 2) <= len (clean_text_for_tts s).
Proof.
  intros Hc.
  assert (Hm : Forall (fun word => len word <= chunk_size) (clean_words s)).
  { pose proof (clean_words_ok s) as H. revert H. apply Forall_impl.
    intros w [_ [_ Hw]]. unfold max_word_length in Hw. lia. }
  destruct (splitter_joins s chunk_size Hm) as [chunks [E Hj]].
  exists chunks. split; [exact E|].
  pose proof (half_bounds chunk_size) as Hhalf.
  assert (Hlong : Forall (fun chunk => chunk_size / 2 <= len chunk)
                         (removelast chunks)).
  { rewrite (smart_text_splitter_positive s chunk_size) in E by lia.
    destruct (len (clean_text_for_tts s) <=? chunk_size).
    - assert (E' : chunks = [clean_text_for_tts s]) by congruence.
      rewrite E'. constructor.
    - pose proof (clean_words_ok s) as Hok.
      pose proof (clean_words_tokens _ Hok) as Ht.
      rewrite clean_text_join in E.
      destruct (chunks_of_groups chunk_size ltac:(lia)
                  (S (length (join [space] (clean_words s))))
                  (clean_words s) Ht Hm) as [groups [Eg [Ec Hg]]]; [lia|].
      assert (Hgt : Forall (Forall is_token) groups)
        by (apply Forall_concat; rewrite Ec; exact Ht).
      rewrite Eg, (drop_blank_groups _ Hgt Hg), <- Eg in E.
      assert (E' : chunks
                   = chunks_of (S (length (join [space] (clean_words s))))
                               (join [space] (clean_words s)) chunk_size)
        by congruence.
      rewrite E'.
      assert (H50 : Forall (fun t => (length t <= 50)%nat) (clean_words s)).
      { revert Hok. apply Forall_impl. intros w [_ [_ Hw]].
        unfold len, max_word_length in Hw. lia. }
      pose proof (chunks_of_long 50 chunk_size ltac:(lia) ltac:(lia)
                    (S (length (join [space] (clean_words s))))
                    (clean_words s) Ht H50 ltac:(lia)) as H.
      revert H. apply Forall_impl. intros chunk H. lia. }
  split; [exact Hlong|].
  pose proof (join_at_least (chunk_size / 2) (removelast chunks)
                            ltac:(lia) Hlong) as Hsum.
  unfold len at 1 in Hsum. rewrite length_removelast in Hsum.
  assert (Hle : len (join [space] (removelast chunks))
                <= len (join [space] chunks)).
  { unfold len. rewrite !join_length.
    pose proof (total_removelast chunks). lia. }
  rewrite Hj in Hle. unfold len at 1.
  pose proof (len_nonneg (clean_text_for_tts s)) as Hpos.
  destruct chunks as [|c l].
  - simpl length. nia.
  - replace (Z.of_nat (length (c :: l)) - 1)
      with (Z.of_nat (length (c :: l) - 1)) by (simpl length; lia).
    exact (Z.le_trans _ _ _ Hsum Hle).
Qed.

Lemma chunks_at_least_half_witness :
  106 <= 1800
  /\ exists chunks,
       smart_text_splitter doc3000 1800 = Returns chunks
       /\ Forall (fun chunk => 1800 / 2 <= len chunk) (removelast chunks)
       /\ (len chunks - 1) * (1800 / 2) <= len (clean_text_for_tts doc3000).
Proof. split; [lia|apply (chunks_at_least_half doc3000 1800); lia]. Defined.

(* ================================================================== *)
(** * The splitter: chunks and the text *)
(* ================================================================== *)

Lemma lstrip_suffix x : exists pre, x = pre ++ lstrip x.
Proof.
  induction x as [|c x [pre IH]]; [exists []; reflexivity|].
  simpl lstrip. destruct (isspace c).
  - exists (c :: pre). simpl. rewrite <- IH. reflexivity.
  - exists []. reflexivity.
Qed.

Lemma rstrip_prefix x : exists post, x = rstrip x ++ post.
Proof.
  induction x as [|c x [post IH]]; [exists []; reflexivity|].
  simpl rstrip. destruct (rstrip x) as [|y r].
  - simpl in IH. destruct (isspace c).
    + exists (c :: x). reflexivity.
    + exists x. reflexivity.
  - exists post. rewrite IH at 1. reflexivity.
Qed.

Lemma strip_occurs x : occurs_in (strip x) x.
Proof.
  destruct (lstrip_suffix x) as [pre E].
  destruct (rstrip_prefix (lstrip x)) as [post E'].
  exists pre, post. unfold strip. rewrite <- E'. exact E.
Qed.

Lemma occurs_in_firstn a n x : occurs_in a (firstn n x) -> occurs_in a x.
Proof.
  intros [pre [post E]]. exists pre, (post ++ skipn n x).
  rewrite <- (firstn_skipn n x) at 1. rewrite E, <- !app_assoc. reflexivity.
Qed.

Lemma occurs_in_rest a n x :
  occurs_in a (lstrip (skipn n x)) -> occurs_in a x.
Proof.
  intros [pre [post E]]. destruct (lstrip_suffix (skipn n x)) as [gap Eg].
  exists (firstn n x ++ gap ++ pre), post.
  rewrite <- (firstn_skipn n x) at 1. rewrite Eg, E, <- !app_assoc.
  reflexivity.
Qed.

Lemma chunks_of_occur chunk_size fuel :
  forall rest,
    Forall (fun chunk => occurs_in chunk rest) (chunks_of fuel rest chunk_size).
Proof.
  induction fuel as [|fuel IH]; intros rest; [constructor|].
  destruct rest as [|c r] eqn:Er; [constructor|]. rewrite <- Er.
  rewrite chunks_of_step by (rewrite Er; discriminate).
  destruct (len rest <=? chunk_size).
  - constructor; [apply strip_occurs|constructor].
  - cbv zeta. constructor.
    + eapply occurs_in_firstn, strip_occurs.
    + eapply Forall_impl; [|apply IH].
      intros chunk H. eapply occurs_in_rest, H.
Qed.

(** X18: for a chunk size of at least 1, also when words are cut, every
    chunk is a run of consecutive characters of the sanitized text. *)
Theorem chunks_occur_in_text s chunk_size :
  1 <= chunk_size ->
  exists chunks,
    smart_text_splitter s chunk_size = Returns chunks
    /\ Forall (fun chunk => occurs_in chunk (clean_text_for_tts s)) chunks.
Proof.
  intros Hc. rewrite (smart_text_splitter_positive _ _ Hc).
  eexists. split; [reflexivity|].
  destruct (len (clean_text_for_tts s) <=? chunk_size).
  - constructor; [|constructor]. exists [], []. rewrite app_nil_r. reflexivity.
  - apply filter_Forall, chunks_of_occur.
Qed.

Lemma chunks_occur_in_text_witness :
  1 <= 3
  /\ exists chunks,
       smart_text_splitter (T "abcdef gh") 3 = Returns chunks
       /\ Forall (fun chunk => occurs_in chunk (clean_text_for_tts (T "abcdef gh")))
                 chunks.
Proof.
  split; [lia|apply (chunks_occur_in_text (T "abcdef gh") 3); lia].
Defined.

Lemma clean_text_fixed s :
  clean_text_for_tts (clean_text_for_tts s) = clean_text_for_tts s.
Proof.
  rewrite (clean_text_join s), clean_text_join, clean_words_join;
    [reflexivity|apply clean_words_ok].
Qed.

(** X19: the chunks depend on the sanitized text only: the splitter gives
    the same result on a text and on its sanitized form, for every chunk
    size and whatever the fuel. *)
Theorem splitter_of_sanitized_text fuel s chunk_size :
  smart_text_splitter_fuel fuel (clean_text_for_tts s) chunk_size
  = smart_text_splitter_fuel fuel s chunk_size.
Proof.
  unfold smart_text_splitter_fuel. rewrite clean_text_fixed. reflexivity.
Qed.
